(** * ClientV3: the Bare protocol (version 3) client adapter

    A shallow embedding of [src/V3.ts] (class [ClientV3]) and of the wire
    types of [src/V3Types.d.ts], together with the host primitives the
    class is written against (JS strings and objects, [JSON], [URL],
    [Headers], [fetch], [WebSocket]).

    Conventions.
    - A JS string is a [string]: one [ascii] per code unit, which is the
      range a header value can carry.
    - A JS exception is a value of type [exn]; a computation that may
      throw returns [result].
    - Objects the code mutates in place ([RawHeaders] arrays) live in a
      store and are passed by reference.
    - [request] and [connect] take as parameters what they import from
      modules that are not among the sources ([joinHeaders],
      [splitHeaders], [md5]) and the host functions whose answers they
      only pass on ([JSON.parse], [fetch]). [JSON.parse], [Codec] and
      [Sample] give instances to run them with.
    - A socket made by [connect] is driven by a sequence of inputs: the
      events the host dispatches, and the calls of the [send] and [close]
      functions [connect] returned. What the caller and the wire see is
      recorded in a trace. *)

From Stdlib Require Import ZArith NArith Ascii String List Lia Bool.
From Stdlib Require Import DecimalString DecimalN.
From stdpp Require Import base option list strings gmap.

Set Warnings "-register-all".

Local Open Scope string_scope.
Local Open Scope list_scope.

(** ** JS strings *)

Module Js.

(** The double quote character and one-character strings. *)
Definition dquote : ascii := ascii_of_nat 34.
Definition str1 (c : ascii) : string := String c EmptyString.

(** [dq s] is [s] with every apostrophe turned into a double quote; JSON
    texts are written with apostrophes below, as in
    [dq "{'type':'open'}"]. *)
Fixpoint dq (s : string) : string :=
  match s with
  | EmptyString => EmptyString
  | String c r => String (if Ascii.eqb c "'" then dquote else c) (dq r)
  end.

Definition is_digit (c : ascii) : bool :=
  (48 <=? nat_of_ascii c)%nat && (nat_of_ascii c <=? 57)%nat.

Definition digit_val (c : ascii) : N := N.of_nat (nat_of_ascii c - 48).

(** Decimal printing of a natural number ([Number.prototype.toString] on
    a non-negative integer). *)
Definition decimal (n : N) : string := NilEmpty.string_of_uint (N.to_uint n).

Definition decimalZ (z : Z) : string :=
  match z with
  | Zneg p => "-" +:+ decimal (Npos p)
  | _ => decimal (Z.to_N z)
  end.

(** A canonical decimal numeral: non-empty, digits only, no leading zero
    (except the numeral 0 itself); that is, a string that is the decimal
    printing of the number it reads as. *)
Definition canonical_decimal (s : string) : option N :=
  match NilEmpty.uint_of_string s with
  | Some d =>
      let n := N.of_uint d in
      if String.eqb (decimal n) s then Some n else None
  | None => None
  end.

Definition is_upper (c : ascii) : bool :=
  (65 <=? nat_of_ascii c)%nat && (nat_of_ascii c <=? 90)%nat.

Definition is_lower (c : ascii) : bool :=
  (97 <=? nat_of_ascii c)%nat && (nat_of_ascii c <=? 122)%nat.

Definition lower_char (c : ascii) : ascii :=
  if is_upper c then ascii_of_nat (nat_of_ascii c + 32) else c.

(** ASCII lower-casing. *)
Fixpoint lower (s : string) : string :=
  match s with
  | EmptyString => EmptyString
  | String c r => String (lower_char c) (lower r)
  end.

(** [Array.prototype.join]. *)
Fixpoint join (sep : string) (l : list string) : string :=
  match l with
  | [] => EmptyString
  | [x] => x
  | x :: r => x +:+ sep +:+ join sep r
  end.

(** JS whitespace and line terminators among the code units below 256. *)
Definition is_space (c : ascii) : bool :=
  let n := nat_of_ascii c in
  ((9 <=? n)%nat && (n <=? 13)%nat) || (n =? 32)%nat || (n =? 160)%nat.

Fixpoint trim_start (s : string) : string :=
  match s with
  | String c r => if is_space c then trim_start r else s
  | EmptyString => EmptyString
  end.

(** A JS number, as far as this client computes with one: [NaN] or an
    integer. *)
Inductive number :=
  | NaN
  | Int (z : Z).

Definition hex_val (c : ascii) : option N :=
  let n := nat_of_ascii c in
  if is_digit c then Some (digit_val c)
  else if (97 <=? n)%nat && (n <=? 102)%nat then Some (N.of_nat (n - 87))
  else if (65 <=? n)%nat && (n <=? 70)%nat then Some (N.of_nat (n - 55))
  else None.

Definition radix_val (radix : N) (c : ascii) : option N :=
  match hex_val c with
  | Some d => if (d <? radix)%N then Some d else None
  | None => None
  end.

(** The longest prefix of [s] made of digits of the radix, read as a
    number; [None] when that prefix is empty. *)
Fixpoint prefix_val (radix : N) (acc : option N) (s : string) : option N :=
  match s with
  | EmptyString => acc
  | String c r =>
      match radix_val radix c with
      | Some d => prefix_val radix (Some (radix * default 0%N acc + d)%N) r
      | None => acc
      end
  end.

(** [parseInt(s)] with the radix left out: leading whitespace, a sign, an
    optional [0x]/[0X] prefix, then the longest run of digits. Integers
    are exact here; a double rounds them from 2^53 on. *)
Definition parseInt (s : string) : number :=
  let s := trim_start s in
  let '(neg, s) :=
    match s with
    | String "-" r => (true, r)
    | String "+" r => (false, r)
    | _ => (false, s)
    end in
  let '(radix, s) :=
    match s with
    | String "0" (String "x" r) => (16%N, r)
    | String "0" (String "X" r) => (16%N, r)
    | _ => (10%N, s)
    end in
  match prefix_val radix None s with
  | None => NaN
  | Some n => Int (if neg : bool then - Z.of_N n else Z.of_N n)
  end.

(** [s.slice(0, n)] and [s.slice(n)]. *)
Fixpoint take (n : nat) (s : string) : string :=
  match n, s with
  | S n', String c r => String c (take n' r)
  | _, _ => EmptyString
  end.

Fixpoint drop (n : nat) (s : string) : string :=
  match n, s with
  | S n', String c r => drop n' r
  | _, _ => s
  end.

Fixpoint concat (l : list string) : string :=
  match l with
  | [] => EmptyString
  | x :: r => x +:+ concat r
  end.

End Js.

(** ** JS objects: own string-keyed properties in enumeration order *)

Module Obj.

Section Props.
Context {V : Type}.

(** An ordinary object is the list of its own enumerable properties in
    the order [Object.entries], [Object.keys] and [JSON.stringify] visit
    them: array-index keys first, ascending, then the other keys in the
    order they were created. *)
Definition t := list (string * V).

(** An array index is a canonical numeral below 2^32 - 1. *)
Definition array_index (k : string) : option N :=
  match Js.canonical_decimal k with
  | Some n => if (n <? 4294967295)%N then Some n else None
  | None => None
  end.

Fixpoint get (k : string) (o : t) : option V :=
  match o with
  | [] => None
  | (k', v) :: r => if String.eqb k' k then Some v else get k r
  end.

Definition has (k : string) (o : t) : bool :=
  match get k o with Some _ => true | None => false end.

(** Assignment to an existing property keeps its place. *)
Fixpoint replace (k : string) (v : V) (o : t) : t :=
  match o with
  | [] => []
  | (k', v') :: r =>
      if String.eqb k' k then (k', v) :: r else (k', v') :: replace k v r
  end.

(** Does a new key [k] enumerate before the existing key [k']? *)
Definition before (k k' : string) : bool :=
  match array_index k, array_index k' with
  | Some i, Some j => (i <? j)%N
  | Some _, None => true
  | None, _ => false
  end.

Fixpoint add (k : string) (v : V) (o : t) : t :=
  match o with
  | [] => [(k, v)]
  | (k', v') :: r =>
      if before k k' then (k, v) :: (k', v') :: r else (k', v') :: add k v r
  end.

(** [o[k] = v] on an ordinary object (CreateDataProperty). *)
Definition set (k : string) (v : V) (o : t) : t :=
  if has k o then replace k v o else add k v o.

(** [Object.fromEntries(entries)]: the entries are set one after the
    other on a fresh object. *)
Definition fromEntries (entries : list (string * V)) : t :=
  fold_left (fun o e => set e.1 e.2 o) entries [].

(** [Object.entries(o)] of an ordinary object. *)
Definition entries (o : t) : list (string * V) := o.

(** The last value some entries give to a name. *)
Definition last_value (k : string) (entries : list (string * V)) : option V :=
  get k (rev entries).

(** Keys in enumeration order: no key enumerates before a key that
    precedes it. *)
Fixpoint ordered (keys : list string) : bool :=
  match keys with
  | [] => true
  | k :: r => forallb (fun k' => negb (before k' k)) r && ordered r
  end.

End Props.

Arguments t : clear implicits.

End Obj.

(** ** JSON *)

Module JSON.

(** A JSON value. A number keeps the numeral it was read from: the
    client never computes with the numbers of a JSON text. *)
Inductive json :=
  | JNull
  | JBool (b : bool)
  | JNum (numeral : string)
  | JStr (s : string)
  | JArr (l : list json)
  | JObj (o : list (string * json)).

(** *** [JSON.stringify] *)

Definition hex_digit (n : nat) : ascii :=
  ascii_of_nat (if (n <? 10)%nat then 48 + n else 87 + n).

(** QuoteJSONString on one code unit. *)
Definition escape_char (c : ascii) : string :=
  let n := nat_of_ascii c in
  if Ascii.eqb c Js.dquote then String "\" (Js.str1 Js.dquote)
  else if Ascii.eqb c "\" then "\\"
  else if (n =? 8)%nat then "\b"
  else if (n =? 9)%nat then "\t"
  else if (n =? 10)%nat then "\n"
  else if (n =? 12)%nat then "\f"
  else if (n =? 13)%nat then "\r"
  else if (n <? 32)%nat
       then "\u00" +:+ String (hex_digit (n / 16)) (Js.str1 (hex_digit (n mod 16)))
  else Js.str1 c.

Fixpoint escape (s : string) : string :=
  match s with
  | EmptyString => EmptyString
  | String c r => escape_char c +:+ escape r
  end.

Definition quote (s : string) : string :=
  String Js.dquote (escape s +:+ Js.str1 Js.dquote).

Fixpoint stringify (j : json) : string :=
  match j with
  | JNull => "null"
  | JBool true => "true"
  | JBool false => "false"
  | JNum numeral => numeral
  | JStr s => quote s
  | JArr l => "[" +:+ Js.join "," (List.map stringify l) +:+ "]"
  | JObj o =>
      "{" +:+ Js.join ","
                (List.map (fun e => quote (fst e) +:+ ":" +:+ stringify (snd e)) o)
          +:+ "}"
  end.

(** *** [JSON.parse] *)

Definition is_ws (c : ascii) : bool :=
  let n := nat_of_ascii c in
  (n =? 32)%nat || (n =? 9)%nat || (n =? 10)%nat || (n =? 13)%nat.

Fixpoint skip_ws (s : string) : string :=
  match s with
  | String c r => if is_ws c then skip_ws r else s
  | EmptyString => EmptyString
  end.

Definition unescape (e : ascii) : option ascii :=
  if Ascii.eqb e Js.dquote then Some Js.dquote
  else if Ascii.eqb e "\" then Some "\"%char
  else if Ascii.eqb e "/" then Some "/"%char
  else if Ascii.eqb e "b" then Some (ascii_of_nat 8)
  else if Ascii.eqb e "f" then Some (ascii_of_nat 12)
  else if Ascii.eqb e "n" then Some (ascii_of_nat 10)
  else if Ascii.eqb e "r" then Some (ascii_of_nat 13)
  else if Ascii.eqb e "t" then Some (ascii_of_nat 9)
  else None.

Definition hex4 (a b c d : ascii) : option N :=
  match Js.hex_val a, Js.hex_val b, Js.hex_val c, Js.hex_val d with
  | Some x, Some y, Some z, Some w => Some (((x * 16 + y) * 16 + z) * 16 + w)%N
  | _, _, _, _ => None
  end.

Definition cons_char (c : ascii) (r : option (string * string)) :
  option (string * string) :=
  match r with
  | Some (x, rest) => Some (String c x, rest)
  | None => None
  end.

(** The characters of a string literal after its opening quote, and the
    text after its closing quote. A [\u] escape of a code unit above 255
    has no counterpart among the strings modelled here and is refused. *)
Fixpoint string_body (s : string) : option (string * string) :=
  match s with
  | EmptyString => None
  | String c r =>
      if Ascii.eqb c Js.dquote then Some (EmptyString, r)
      else if Ascii.eqb c "\" then
        match r with
        | String "u" (String h1 (String h2 (String h3 (String h4 r')))) =>
            match hex4 h1 h2 h3 h4 with
            | Some n =>
                if (n <? 256)%N then cons_char (ascii_of_N n) (string_body r')
                else None
            | None => None
            end
        | String e r' =>
            match unescape e with
            | Some ch => cons_char ch (string_body r')
            | None => None
            end
        | EmptyString => None
        end
      else if (nat_of_ascii c <? 32)%nat then None
      else cons_char c (string_body r)
  end.

Fixpoint span_digits (s : string) : string * string :=
  match s with
  | String c r =>
      if Js.is_digit c
      then let '(d, rest) := span_digits r in (String c d, rest)
      else (EmptyString, s)
  | EmptyString => (EmptyString, EmptyString)
  end.

(** The numeral at the head of [s]: an optional minus sign; the integer
    part, a single 0 or a run of digits that does not start with 0; an
    optional fraction, a dot and at least one digit; an optional exponent,
    e or E, an optional sign and at least one digit. *)
Definition numeral (s : string) : option (string * string) :=
  let '(sign, s) :=
    match s with String "-" r => ("-", r) | _ => (EmptyString, s) end in
  let '(int, s) :=
    match s with
    | String "0" r => ("0", r)
    | _ => span_digits s
    end in
  if String.eqb int EmptyString then None else
  let frac :=
    match s with
    | String "." r =>
        let '(d, r') := span_digits r in
        if String.eqb d EmptyString then None else Some ("." +:+ d, r')
    | _ => Some (EmptyString, s)
    end in
  match frac with
  | None => None
  | Some (fr, s) =>
      let exp :=
        match s with
        | String e r =>
            if Ascii.eqb e "e" || Ascii.eqb e "E" then
              let '(sg, r1) :=
                match r with
                | String "+" r1 => ("+", r1)
                | String "-" r1 => ("-", r1)
                | _ => (EmptyString, r)
                end in
              let '(d, r2) := span_digits r1 in
              if String.eqb d EmptyString then None
              else Some (Js.str1 e +:+ sg +:+ d, r2)
            else Some (EmptyString, s)
        | EmptyString => Some (EmptyString, s)
        end in
      match exp with
      | None => None
      | Some (ex, s) => Some (sign +:+ int +:+ fr +:+ ex, s)
      end
  end.

Fixpoint strip_prefix (p s : string) : option string :=
  match p, s with
  | EmptyString, _ => Some s
  | String a p', String b s' => if Ascii.eqb a b then strip_prefix p' s' else None
  | String _ _, EmptyString => None
  end.

Definition scalar (s : string) : option (json * string) :=
  match strip_prefix "true" s with
  | Some r => Some (JBool true, r)
  | None =>
  match strip_prefix "false" s with
  | Some r => Some (JBool false, r)
  | None =>
  match strip_prefix "null" s with
  | Some r => Some (JNull, r)
  | None =>
  match numeral s with
  | Some (n, r) => Some (JNum n, r)
  | None => None
  end end end end.

(** Recursive descent; a repeated member name keeps its first place and
    takes the last value, as assignment to the object under construction
    does. *)
Fixpoint value (fuel : nat) (s : string) {struct fuel} : option (json * string) :=
  match fuel with
  | O => None
  | S f =>
      match skip_ws s with
      | EmptyString => None
      | String c r =>
          if Ascii.eqb c Js.dquote then
            match string_body r with
            | Some (x, r') => Some (JStr x, r')
            | None => None
            end
          else if Ascii.eqb c "[" then
            match skip_ws r with
            | String "]" r' => Some (JArr [], r')
            | _ => elements f r []
            end
          else if Ascii.eqb c "{" then
            match skip_ws r with
            | String "}" r' => Some (JObj [], r')
            | _ => members f r []
            end
          else scalar (String c r)
      end
  end
with elements (fuel : nat) (s : string) (acc : list json) {struct fuel} :
  option (json * string) :=
  match fuel with
  | O => None
  | S f =>
      match value f s with
      | Some (v, r) =>
          match skip_ws r with
          | String "," r' => elements f r' (v :: acc)
          | String "]" r' => Some (JArr (rev (v :: acc)), r')
          | _ => None
          end
      | None => None
      end
  end
with members (fuel : nat) (s : string) (acc : Obj.t json) {struct fuel} :
  option (json * string) :=
  match fuel with
  | O => None
  | S f =>
      match skip_ws s with
      | String c r =>
          if Ascii.eqb c Js.dquote then
            match string_body r with
            | Some (k, r1) =>
                match skip_ws r1 with
                | String ":" r2 =>
                    match value f r2 with
                    | Some (v, r3) =>
                        let acc' := Obj.set k v acc in
                        match skip_ws r3 with
                        | String "," r4 => members f r4 acc'
                        | String "}" r4 => Some (JObj acc', r4)
                        | _ => None
                        end
                    | None => None
                    end
                | _ => None
                end
            | None => None
            end
          else None
      | EmptyString => None
      end
  end.

(** [JSON.parse(text)]; [None] stands for the SyntaxError it throws. *)
Definition parse (text : string) : option json :=
  match value (2 * String.length text + 2) text with
  | Some (v, r) =>
      match skip_ws r with
      | EmptyString => Some v
      | _ => None
      end
  | None => None
  end.

(** A value that holds no number. *)
Fixpoint number_free (j : json) : bool :=
  match j with
  | JNum _ => false
  | JArr l => forallb number_free l
  | JObj o => forallb (fun e => number_free (snd e)) o
  | _ => true
  end.

(** The value whose members are assigned one after the other, in every
    object of [j], as [parse] assigns the members it reads. *)
Fixpoint normal (j : json) : json :=
  match j with
  | JArr l => JArr (List.map normal l)
  | JObj o => JObj (Obj.fromEntries (List.map (fun e => (fst e, normal (snd e))) o))
  | _ => j
  end.

End JSON.

(** ** URL objects *)

Module URL.

(** A parsed URL, with the components of the URL Standard. [hostname] is
    [None] for a null host and [Some EmptyString] for an empty one;
    [pathname] is the serialized path. *)
Record t := mk {
  scheme : string;
  username : string;
  password : string;
  hostname : option string;
  port : option N;
  pathname : string;
  query : option string;
  fragment : option string
}.

Definition special (s : string) : bool :=
  String.eqb s "ftp" || String.eqb s "file" || String.eqb s "http"
  || String.eqb s "https" || String.eqb s "ws" || String.eqb s "wss".

Definition default_port (s : string) : option N :=
  if String.eqb s "ftp" then Some 21%N
  else if String.eqb s "http" then Some 80%N
  else if String.eqb s "https" then Some 443%N
  else if String.eqb s "ws" then Some 80%N
  else if String.eqb s "wss" then Some 443%N
  else None.

Definition eqb_port (a b : option N) : bool :=
  match a, b with
  | Some x, Some y => (x =? y)%N
  | None, None => true
  | _, _ => false
  end.

(** What the URL parser guarantees about the port: it is never the
    default port of the scheme. *)
Definition wf (u : t) : bool :=
  match port u with
  | Some p => negb (eqb_port (Some p) (default_port (scheme u)))
  | None => true
  end.

Definition includes_credentials (u : t) : bool :=
  negb (String.eqb (username u) EmptyString)
  || negb (String.eqb (password u) EmptyString).

(** A [file] URL with an empty host. *)
Definition file_without_host (u : t) : bool :=
  String.eqb (scheme u) "file"
  && match hostname u with
     | Some h => String.eqb h EmptyString
     | None => false
     end.

(** The [protocol] getter. *)
Definition protocol (u : t) : string := scheme u +:+ ":".

(** The [host] getter: the host, followed by [:] and the port when there
    is one. *)
Definition host (u : t) : string :=
  match hostname u with
  | None => EmptyString
  | Some h =>
      match port u with
      | None => h
      | Some p => h +:+ ":" +:+ Js.decimal p
      end
  end.

(** The URL serializer: [href] and [toString()]. *)
Definition href (u : t) : string :=
  scheme u +:+ ":"
  +:+ match hostname u with
      | Some h =>
          "//"
          +:+ (if includes_credentials u
               then username u
                    +:+ (if String.eqb (password u) EmptyString then EmptyString
                         else ":" +:+ password u)
                    +:+ "@"
               else EmptyString)
          +:+ h
          +:+ match port u with
              | Some p => ":" +:+ Js.decimal p
              | None => EmptyString
              end
      | None => if String.prefix "//" (pathname u) then "/." else EmptyString
      end
  +:+ pathname u
  +:+ match query u with Some q => "?" +:+ q | None => EmptyString end
  +:+ match fragment u with Some f => "#" +:+ f | None => EmptyString end.

Definition toString : t -> string := href.

(** [new URL(u)] for a URL object [u]: [u] is serialized and parsed
    again, which gives a new object with the same components. *)
Definition new (u : t) : t := u.

Definition is_tab_or_newline (c : ascii) : bool :=
  let n := nat_of_ascii c in (n =? 9)%nat || (n =? 10)%nat || (n =? 13)%nat.

Fixpoint remove_tab_newline (s : string) : string :=
  match s with
  | EmptyString => EmptyString
  | String c r =>
      if is_tab_or_newline c then remove_tab_newline r
      else String c (remove_tab_newline r)
  end.

Definition is_alpha (c : ascii) : bool := Js.is_upper c || Js.is_lower c.

Definition is_scheme_char (c : ascii) : bool :=
  is_alpha c || Js.is_digit c || Ascii.eqb c "+" || Ascii.eqb c "-"
  || Ascii.eqb c ".".

(** The scheme state of the URL parser run with a state override: the
    buffer when the colon is reached, failure on any other character. *)
Fixpoint scheme_state (buffer input : string) : option string :=
  match input with
  | EmptyString => None
  | String c r =>
      if is_scheme_char c
      then scheme_state (buffer +:+ Js.str1 (Js.lower_char c)) r
      else if Ascii.eqb c ":" then Some buffer
      else None
  end.

(** The scheme start state: a scheme begins with a letter. *)
Definition scheme_start_state (input : string) : option string :=
  match input with
  | String c r =>
      if is_alpha c then scheme_state (Js.str1 (Js.lower_char c)) r else None
  | EmptyString => None
  end.

(** The [protocol] setter, [u.protocol = value]: the URL parser is run on
    [value] followed by a colon, starting in the scheme start state with
    [u] as the URL to change. The scheme is left as it is when the value
    is not a scheme, when exactly one of the old and the new scheme is
    special, when the new scheme is [file] and [u] has credentials or a
    port, or when [u] is a [file] URL with an empty host. When the scheme
    changes, a port that is the default port of the new scheme is
    dropped. *)
Definition set_protocol (value : string) (u : t) : t :=
  match scheme_start_state (remove_tab_newline (value +:+ ":")) with
  | None => u
  | Some buffer =>
      if negb (Bool.eqb (special (scheme u)) (special buffer)) then u
      else if (includes_credentials u || negb (eqb_port (port u) None))
              && String.eqb buffer "file" then u
      else if file_without_host u then u
      else
        mk buffer (username u) (password u) (hostname u)
           (if eqb_port (port u) (default_port buffer) then None else port u)
           (pathname u) (query u) (fragment u)
  end.

(** [u] with its scheme replaced and nothing else changed. *)
Definition with_scheme (s : string) (u : t) : t :=
  mk s (username u) (password u) (hostname u) (port u) (pathname u)
     (query u) (fragment u).

End URL.

(** ** The class [Client] and the constructor of [ClientV3] *)

Module Client.

Record t := mk {
  version : N;
  base : URL.t
}.

(** Modelled from the spec: the constructor of the superclass [Client]
    ([src/Client.ts] is not part of the sources). The spec has the tunnel
    server's base URL supplied at construction and derives both endpoints
    from it, so [base] is that URL. *)
Definition constructor (version : N) (server : URL.t) : t :=
  mk version server.

End Client.

Module ClientV3.

Record t := mk {
  super : Client.t;
  ws : URL.t;
  http : URL.t;
  ready : bool
}.

(** [constructor(server)], lines 22-33. The two [new URL(this.base)] are
    two objects: the assignment to [this.ws.protocol] leaves [this.http]
    alone. *)
Definition constructor (server : URL.t) : t :=
  let super := Client.constructor 3 server in
  let ws := URL.new (Client.base super) in
  let http := URL.new (Client.base super) in
  let ws :=
    if String.eqb (URL.protocol ws) "https:"
    then URL.set_protocol "wss:" ws
    else URL.set_protocol "ws:" ws in
  mk super ws http true.

End ClientV3.

(** ** Exceptions *)

Inductive exn :=
  | TypeError (message : string)
  | SyntaxError
  | InvalidStateError
  | BareError (status : Z) (body : JSON.json)
  | CodecError
  | FetchError (message : string).

Inductive result (A : Type) :=
  | Ok (a : A)
  | Throw (e : exn).

Arguments Ok {A} a.
Arguments Throw {A} e.

#[global] Instance result_bind : MBind result :=
  fun A B k r =>
    match r with
    | Ok a => k a
    | Throw e => Throw e
    end.

#[global] Instance result_ret : MRet result := fun A a => Ok a.

#[global] Instance result_fmap : FMap result :=
  fun A B f r =>
    match r with
    | Ok a => Ok (f a)
    | Throw e => Throw e
    end.

(** ** [Headers] objects *)

Module Headers.

(** A [Headers] object: one value per name, names kept in lower case.
    The values this client stores are a URL serialization, a JSON text and
    the names and numbers it is given; they are kept as they are. *)
Definition t := list (string * string).

Definition new : t := [].

Definition get (name : string) (h : t) : option string :=
  Obj.get (Js.lower name) h.

Definition has (name : string) (h : t) : bool :=
  Obj.has (Js.lower name) h.

Definition set (name value : string) (h : t) : t :=
  if has name h then Obj.replace (Js.lower name) value h
  else h ++ [(Js.lower name, value)].

(** [append] joins the values of one name with a comma and a space. *)
Definition append (name value : string) (h : t) : t :=
  match get name h with
  | Some old => Obj.replace (Js.lower name) (old +:+ ", " +:+ value) h
  | None => h ++ [(Js.lower name, value)]
  end.

End Headers.

(** ** The header codec

    [src/splitHeaderUtil.js] is not part of the sources: this module
    follows the description of the codec in the spec, over ordered
    collections of (name, value) pairs. *)

Module Codec.

Section Threshold.

(** The chunk threshold, a fixed configuration constant. *)
Variable threshold : nat.

(** Modelled from the spec: the partition of a value into consecutive
    substrings of at most [threshold] characters ([src/splitHeaderUtil.js]
    is not part of the sources). *)
Fixpoint pieces (fuel : nat) (value : string) : list string :=
  match fuel with
  | O => [value]
  | S f =>
      if (String.length value <=? threshold)%nat then [value]
      else Js.take threshold value :: pieces f (Js.drop threshold value)
  end.

Definition partition (value : string) : list string :=
  pieces (String.length value) value.

(** The physical names of a chunked header: [name], [name-1], [name-2],
    and so on. *)
Definition chunk_name (name : string) (i : nat) : string :=
  match i with
  | O => name
  | S _ => name +:+ "-" +:+ Js.decimal (N.of_nat i)
  end.

(** The pieces of one value under the physical names [name-i],
    [name-(i+1)], and so on. *)
Fixpoint number (name : string) (i : nat) (values : list string) : Headers.t :=
  match values with
  | [] => []
  | v :: r => (chunk_name name i, v) :: number name (S i) r
  end.

Definition split_one (e : string * string) : list (string * string) :=
  if (String.length e.2 <=? threshold)%nat then [e]
  else number e.1 0 (partition e.2).

(** Modelled from the spec: [splitHeaders] ([src/splitHeaderUtil.js] is
    not part of the sources). For each logical (name, value), a value of
    at most [threshold] characters is emitted unchanged; a longer one is
    partitioned and emitted as [name], [name-1], [name-2], ... in order,
    each carrying one substring. *)
Definition splitHeaders (h : Headers.t) : Headers.t :=
  flat_map split_one h.

(** [name] cut at its last dash. *)
Fixpoint rsplit_dash (name : string) : option (string * string) :=
  match name with
  | EmptyString => None
  | String c r =>
      match rsplit_dash r with
      | Some (a, b) => Some (String c a, b)
      | None => if Ascii.eqb c "-" then Some (EmptyString, r) else None
      end
  end.

(** A trailing [-<n>], with n a numeral from 1 on. *)
Definition suffix_of (name : string) : option (string * nat) :=
  match rsplit_dash name with
  | Some (b, d) =>
      match Js.canonical_decimal d with
      | Some n => if (0 <? n)%N then Some (b, N.to_nat n) else None
      | None => None
      end
  | None => None
  end.

(** The base name and suffix of a physical entry: the suffix is stripped
    only if an entry named as the base exists; a bare name has suffix 0. *)
Definition locate (p : Headers.t) (name : string) : string * nat :=
  match suffix_of name with
  | Some (b, k) => if Obj.has b p then (b, k) else (name, O)
  | None => (name, O)
  end.

Definition is_base (p : Headers.t) (name : string) : bool :=
  let '(b, k) := locate p name in String.eqb b name && (k =? 0)%nat.

(** The entries of the group of [base], each with its suffix. *)
Definition group (p : Headers.t) (base : string) : list (nat * string) :=
  omap (fun e : string * string =>
          let '(b, k) := locate p e.1 in
          if String.eqb b base then Some (k, e.2) else None) p.

Fixpoint insert_by_suffix (x : nat * string) (l : list (nat * string)) :
  list (nat * string) :=
  match l with
  | [] => [x]
  | y :: r =>
      if (x.1 <=? y.1)%nat then x :: y :: r else y :: insert_by_suffix x r
  end.

Fixpoint sort_by_suffix (l : list (nat * string)) : list (nat * string) :=
  match l with
  | [] => []
  | x :: r => insert_by_suffix x (sort_by_suffix r)
  end.

Definition eqb_nats (a b : list nat) : bool :=
  bool_decide (a = b).

(** The logical value of a group: the values in ascending order of
    suffix, with no separator; a gap in the suffixes is a codec error. *)
Definition group_value (g : list (nat * string)) : result string :=
  let sorted := sort_by_suffix g in
  if eqb_nats (List.map fst sorted) (seq 0 (List.length sorted))
  then Ok (Js.concat (List.map snd sorted))
  else Throw CodecError.

Fixpoint join_groups (p : Headers.t) (bases : list string) : result Headers.t :=
  match bases with
  | [] => Ok []
  | b :: r =>
      v ← group_value (group p b);
      rest ← join_groups p r;
      Ok ((b, v) :: rest)
  end.

(** Modelled from the spec: [joinHeaders] ([src/splitHeaderUtil.js] is
    not part of the sources). Physical entries are grouped by base name,
    each group is sorted by suffix and its values are concatenated into
    one logical value. A numbered entry whose base is itself a numbered
    entry of another group has no group to go to: a codec error. *)
Definition joinHeaders (p : Headers.t) : result Headers.t :=
  if forallb (fun e : string * string => is_base p (locate p e.1).1) p
  then join_groups p (List.map fst (List.filter (fun e : string * string => is_base p e.1) p))
  else Throw CodecError.

End Threshold.

End Codec.

(** ** The store of [RawHeaders] arrays *)

(** [RawHeaders] is an array of (name, value) pairs. The caller's array
    is passed to [request] and [connect] by reference and changed in
    place, so arrays live in a store. *)
Abbreviation RawHeaders := (list (string * string)).
Abbreviation loc := positive.
Abbreviation store := (gmap positive (list (string * string))).

Module Store.

Definition read (a : loc) (σ : store) : RawHeaders := default [] (σ !! a).

(** [a.push(e)]. *)
Definition push (a : loc) (e : string * string) (σ : store) : store :=
  <[a := read a σ ++ [e]]> σ.

(** A new array holding [l]. *)
Definition alloc (l : RawHeaders) (σ : store) : loc * store :=
  let a := fresh (dom σ) in (a, <[a := l]> σ).

End Store.

(** ** The HTTP side: [fetch], [Response], [request] *)

Module Http.

Inductive bodyinit :=
  | BNull
  | BData (content : string).

(** The [RequestInit] that [request] builds. A field that is [None] was
    never assigned. *)
Record RequestInit := mkInit {
  credentials : string;
  method : string;
  signal : option nat;
  duplex : string;
  body : option bodyinit;
  headers : option Headers.t
}.

(** A physical response: its status, its headers and the text of its
    body. *)
Record Response := mkResponse {
  status : Z;
  response_headers : Headers.t;
  response_body : string
}.

(** [response.ok]: the status is in the range 200-299. *)
Definition ok (r : Response) : bool :=
  (200 <=? status r)%Z && (status r <=? 299)%Z.

(** [Partial<BareResponseHeaders>]: a field that is [None] is unset. The
    entries of a decoded JSON value are whatever that value holds. *)
Record BareResponseHeaders := mkBare {
  bare_headers : option (list (string * JSON.json));
  bare_status : option Js.number;
  bare_statusText : option string
}.

(** [TransferrableResponse], the logical remote response. *)
Record TransferrableResponse := mkTransferrable {
  t_body : string;
  t_headers : option (list (string * JSON.json));
  t_status : option Js.number;
  t_statusText : option string
}.

(** The properties of an array, for [Object.entries]: the elements under
    their indices. *)
Definition array_entries (l : list JSON.json) : list (string * JSON.json) :=
  imap (fun i v => (Js.decimal (N.of_nat i), v)) l.

Fixpoint chars (s : string) : list JSON.json :=
  match s with
  | EmptyString => []
  | String c r => JSON.JStr (Js.str1 c) :: chars r
  end.

(** [Object.entries(v)] for a value [v] that came out of [JSON.parse]:
    the members of an object, the indexed elements of an array, the
    indexed characters of a string, nothing for a number or a boolean,
    and a TypeError for [null]. *)
Definition Object_entries (v : JSON.json) : result (list (string * JSON.json)) :=
  match v with
  | JSON.JObj o => Ok (Obj.entries o)
  | JSON.JArr l => Ok (array_entries l)
  | JSON.JStr s => Ok (array_entries (chars s))
  | JSON.JNum _ | JSON.JBool _ => Ok []
  | JSON.JNull => Throw (TypeError "Cannot convert undefined or null to object")
  end.

(** The object [Object.fromEntries(h)] of a header array, as a JSON
    value. *)
Definition headers_object (h : RawHeaders) : JSON.json :=
  JSON.JObj (List.map (fun e : string * string => (e.1, JSON.JStr e.2))
                      (Obj.fromEntries h)).


Section Host.

(** The host and the modules this class imports. [JSON_parse] answers
    [None] where [JSON.parse] throws a SyntaxError. [splitHeaders] is
    called for its effect on the [Headers] object it is given and stands
    for the contents of that object afterwards. *)
Variable JSON_parse : string -> option JSON.json.
Variable md5 : string -> string.
Variable fetch : string -> RequestInit -> result Response.
Variable joinHeaders : Headers.t -> result Headers.t.
Variable splitHeaders : Headers.t -> Headers.t.

(** [response.json()]. *)
Definition json (r : Response) : result JSON.json :=
  match JSON_parse (response_body r) with
  | Some v => Ok v
  | None => Throw SyntaxError
  end.

(** [createBareHeaders], lines 172-199. *)
Definition createBareHeaders (remote : URL.t) (bareHeaders : RawHeaders)
    (forwardHeaders passHeaders : list string) (passStatus : list Z) : Headers.t :=
  let headers := Headers.new in
  let headers := Headers.set "x-bare-url" (URL.toString remote) headers in
  let headers :=
    Headers.set "x-bare-headers" (JSON.stringify (headers_object bareHeaders))
                headers in
  let headers :=
    fold_left (fun hs header => Headers.append "x-bare-forward-headers" header hs)
              forwardHeaders headers in
  let headers :=
    fold_left (fun hs header => Headers.append "x-bare-pass-headers" header hs)
              passHeaders headers in
  let headers :=
    fold_left (fun hs status =>
                 Headers.append "x-bare-pass-status" (Js.decimalZ status) hs)
              passStatus headers in
  let headers := splitHeaders headers in
  headers.

(** [readBareResponse], lines 152-171. *)
Definition readBareResponse (response : Response) : result BareResponseHeaders :=
  if negb (ok response) then
    body ← json response;
    Throw (BareError (status response) body)
  else
    responseHeaders ← joinHeaders (response_headers response);
    let result := mkBare None None None in
    let xBareStatus := Headers.get "x-bare-status" responseHeaders in
    let result :=
      match xBareStatus with
      | Some x => mkBare (bare_headers result) (Some (Js.parseInt x))
                         (bare_statusText result)
      | None => result
      end in
    let xBareStatusText := Headers.get "x-bare-status-text" responseHeaders in
    let result :=
      match xBareStatusText with
      | Some x => mkBare (bare_headers result) (bare_status result) (Some x)
      | None => result
      end in
    let xBareHeaders := Headers.get "x-bare-headers" responseHeaders in
    result ←
      match xBareHeaders with
      | Some x =>
          match JSON_parse x with
          | Some v =>
              entries ← Object_entries v;
              Ok (mkBare (Some entries) (bare_status result)
                         (bare_statusText result))
          | None => Throw SyntaxError
          end
      | None => Ok result
      end;
    Ok result.

(** [request], lines 115-150. The push onto the caller's array comes
    before anything that can fail, so the store it leaves is the same on
    every path. *)
Definition request (this : ClientV3.t) (remote : URL.t) (method : string)
    (body : option bodyinit) (headers : loc) (signal : option nat)
    (σ : store) : store * result TransferrableResponse :=
  let options := mkInit "omit" method signal "half" None None in
  let options :=
    match body with
    | Some b => mkInit (credentials options) (Http.method options)
                       (Http.signal options) (duplex options) (Some b)
                       (Http.headers options)
    | None => options
    end in
  let σ := Store.push headers ("Host", URL.host remote) σ in
  let options :=
    mkInit (credentials options) (Http.method options) (Http.signal options)
           (duplex options) (Http.body options)
           (Some (createBareHeaders remote (Store.read headers σ) [] [] [])) in
  (σ,
   response ←
     fetch (URL.toString (ClientV3.http this) +:+ "?cache="
            +:+ md5 (URL.toString remote)) options;
   readResponse ← readBareResponse response;
   Ok (mkTransferrable (response_body response) (bare_headers readResponse)
                       (bare_status readResponse)
                       (bare_statusText readResponse))).

End Host.

End Http.

(** ** The WebSocket side: the socket, its listeners, [connect] *)

Module Ws.

(** A frame payload: [Blob | ArrayBuffer | string]. *)
Inductive data :=
  | Text (s : string)
  | Blob (bytes : string)
  | ArrayBuffer (bytes : string).

Inductive readyState := CONNECTING | OPEN | CLOSING | CLOSED.

Inductive etype := TOpen | TMessage | TClose | TError.

(** The events the host dispatches on the socket. *)
Inductive event :=
  | EvOpen
  | EvMessage (d : data)
  | EvClose (code : Z) (reason : string)
  | EvError.

Definition type_of (e : event) : etype :=
  match e with
  | EvOpen => TOpen
  | EvMessage _ => TMessage
  | EvClose _ _ => TClose
  | EvError => TError
  end.

(** The functions [connect] registers as listeners: [messageListener]
    (line 60), [closeListener] (line 85), the [open] handler (lines
    96-107), and the two handlers [messageListener] installs, for
    [message] (lines 76-78) and for [close] (lines 80-82). *)
Inductive listener :=
  | messageListener
  | closeListener
  | openHandler
  | relayMessage
  | relayClose.

Record registration := mkReg {
  reg_type : etype;
  reg_listener : listener;
  reg_once : bool
}.

Definition etype_eqb (a b : etype) : bool :=
  match a, b with
  | TOpen, TOpen | TMessage, TMessage | TClose, TClose | TError, TError => true
  | _, _ => false
  end.

Definition listener_eqb (a b : listener) : bool :=
  match a, b with
  | messageListener, messageListener
  | closeListener, closeListener
  | openHandler, openHandler
  | relayMessage, relayMessage
  | relayClose, relayClose => true
  | _, _ => false
  end.

Definition same (ty : etype) (l : listener) (r : registration) : bool :=
  etype_eqb (reg_type r) ty && listener_eqb (reg_listener r) l.

(** The socket [ws]: the endpoint it was opened on, its ready state and
    its event listener list. *)
Record socket := mkSocket {
  endpoint : URL.t;
  ready : readyState;
  listeners : list registration
}.

(** [new WebSocket(url)]. *)
Definition new (url : URL.t) : socket := mkSocket url CONNECTING [].

(** [addEventListener]: a listener already registered for the type is
    not registered again. *)
Definition addEventListener (ty : etype) (l : listener) (once : bool)
    (s : socket) : socket :=
  if existsb (same ty l) (listeners s) then s
  else mkSocket (endpoint s) (ready s) (listeners s ++ [mkReg ty l once]).

Definition removeEventListener (ty : etype) (l : listener) (s : socket) : socket :=
  mkSocket (endpoint s) (ready s)
           (List.filter (fun r => negb (same ty l r)) (listeners s)).

Inductive sender := Handshake | Caller.

(** What the caller and the wire see, in order: the calls of the four
    callbacks, the payloads that go out on the socket (with who sent
    them: the [open] handler of [connect], or the caller through the
    [send] it was handed), and the exceptions that leave a listener or a
    call. The callbacks are taken to return normally. *)
Inductive action :=
  | Onopen (protocol : option JSON.json) (extensions : string)
  | Onmessage (d : data)
  | Onclose (code : Z) (reason : string)
  | Onerror (error : string)
  | Sent (who : sender) (d : data)
  | Thrown (e : exn).

Record world := mkWorld {
  sock : socket;
  heap : store;
  trace : list action
}.

(** What the closures of one [connect] call capture. *)
Record connection := mkConn {
  conn_url : URL.t;
  conn_protocols : list string;
  conn_headers : loc
}.

(** Code running against the world: it may change the world, and returns
    or throws. *)
Definition M (A : Type) : Type := world -> world * result A.

Definition ret {A} (a : A) : M A := fun w => (w, Ok a).

Definition throw {A} (e : exn) : M A := fun w => (w, Throw e).

Definition bindM {A B} (m : M A) (k : A -> M B) : M B :=
  fun w =>
    match m w with
    | (w', Ok a) => k a w'
    | (w', Throw e) => (w', Throw e)
    end.

Notation "x <- m ;; k" := (bindM m (fun x => k))
  (at level 100, m at next level, right associativity).
Notation "m ;; k" := (bindM m (fun _ => k))
  (at level 100, right associativity).

Definition log (a : action) : M unit :=
  fun w => (mkWorld (sock w) (heap w) (trace w ++ [a]), Ok tt).

Definition on_socket (f : socket -> socket) : M unit :=
  fun w => (mkWorld (f (sock w)) (heap w) (trace w), Ok tt).

Definition lift {A} (r : result A) : M A := fun w => (w, r).

(** The socket's own [send]: an InvalidStateError while connecting, the
    payload on the wire while open, nothing once closing or closed. *)
Definition send (who : sender) (d : data) : M unit :=
  fun w =>
    match ready (sock w) with
    | CONNECTING => throw InvalidStateError w
    | OPEN => log (Sent who d) w
    | CLOSING | CLOSED => ret tt w
    end.

(** [v.name] for a value [v] that came out of [JSON.parse] and a name
    that no built-in prototype defines ([type] and [protocol] here): a
    TypeError on [null], the member of an object, [undefined] ([None])
    otherwise. *)
Definition prop (v : JSON.json) (name : string) : result (option JSON.json) :=
  match v with
  | JSON.JNull => Throw (TypeError "Cannot read properties of null")
  | JSON.JObj o => Ok (Obj.get name o)
  | _ => Ok None
  end.

(** [x !== "open"]. *)
Definition is_not_open (x : option JSON.json) : bool :=
  match x with
  | Some (JSON.JStr s) => negb (String.eqb s "open")
  | _ => true
  end.

(** The Connect control message of lines 99-105. *)
Definition connect_message (url : URL.t) (protocols : list string)
    (requestHeaders : RawHeaders) : JSON.json :=
  JSON.JObj
    [("type", JSON.JStr "connect");
     ("remote", JSON.JStr (URL.toString url));
     ("protocols", JSON.JArr (List.map JSON.JStr protocols));
     ("headers", Http.headers_object requestHeaders);
     ("forwardHeaders", JSON.JArr [])].

Section Host.

Variable JSON_parse : string -> option JSON.json.

Definition parse (text : string) : M JSON.json :=
  match JSON_parse text with
  | Some v => ret v
  | None => throw SyntaxError
  end.

(** [cleanup], lines 55-58. *)
Definition cleanup : M unit :=
  on_socket (removeEventListener TClose closeListener) ;;
  on_socket (removeEventListener TMessage messageListener).

(** The body of each listener. *)
Definition call (c : connection) (l : listener) (e : event) : M unit :=
  match l, e with
  | messageListener, EvMessage d =>
      cleanup ;;
      match d with
      | Text text =>
          message <- parse text ;;
          ty <- lift (prop message "type") ;;
          if is_not_open ty
          then throw (TypeError "message was not of open type")
          else
            protocol <- lift (prop message "protocol") ;;
            log (Onopen protocol EmptyString) ;;
            on_socket (addEventListener TMessage relayMessage false) ;;
            on_socket (addEventListener TClose relayClose false)
      | _ =>
          throw (TypeError "the first websocket message was not a text frame")
      end
  | closeListener, EvClose code reason =>
      log (Onclose code reason) ;;
      cleanup
  | openHandler, EvOpen =>
      fun w =>
        send Handshake
             (Text (JSON.stringify
                      (connect_message (conn_url c) (conn_protocols c)
                                       (Store.read (conn_headers c) (heap w)))))
             w
  | relayMessage, EvMessage d => log (Onmessage d)
  | relayClose, EvClose code reason => log (Onclose code reason)
  | _, _ => ret tt
  end.

Definition registered (r : registration) (w : world) : bool :=
  existsb (same (reg_type r) (reg_listener r)) (listeners (sock w)).

(** One listener of a dispatch: it is skipped if it was removed in the
    meantime, unregistered first if it was registered once, and an
    exception it throws is reported and stops nothing else. *)
Definition invoke (c : connection) (e : event) (w : world) (r : registration) : world :=
  if registered r w then
    let w :=
      if reg_once r
      then (on_socket (removeEventListener (reg_type r) (reg_listener r)) w).1
      else w in
    match call c (reg_listener r) e w with
    | (w', Ok _) => w'
    | (w', Throw ex) => (log (Thrown ex) w').1
    end
  else w.

(** The dispatch of an event: the listeners of its type, as registered
    when the dispatch starts, in order. *)
Definition dispatch (c : connection) (e : event) (w : world) : world :=
  fold_left (invoke c e)
            (List.filter (fun r => etype_eqb (reg_type r) (type_of e))
                         (listeners (sock w)))
            w.

Definition set_ready (f : readyState -> readyState) (w : world) : world :=
  mkWorld (mkSocket (endpoint (sock w)) (f (ready (sock w))) (listeners (sock w)))
          (heap w) (trace w).

(** What happens to a socket after [connect] has returned: the host
    dispatches an event, or the caller uses the [send] or the [close] it
    was handed (line 112). A [close] that throws for its arguments
    changes nothing, as if it had not been called. *)
Inductive input :=
  | Event (e : event)
  | CallSend (d : data)
  | CallClose (code : Z) (reason : string).

Definition step (c : connection) (w : world) (i : input) : world :=
  match i with
  | Event EvOpen =>
      dispatch c EvOpen
               (set_ready (fun s => match s with CONNECTING => OPEN | _ => s end) w)
  | Event (EvClose code reason) =>
      dispatch c (EvClose code reason) (set_ready (fun _ => CLOSED) w)
  | Event e => dispatch c e w
  | CallSend d =>
      match send Caller d w with
      | (w', Ok _) => w'
      | (w', Throw ex) => (log (Thrown ex) w').1
      end
  | CallClose code reason =>
      set_ready (fun s => match s with CONNECTING | OPEN => CLOSING | _ => s end) w
  end.

Definition run (c : connection) (w : world) (inputs : list input) : world :=
  fold_left (step c) inputs w.

(** [connect], lines 38-113. [requestHeaders] is [None] when the caller
    leaves it out: the default [[]] is then a new array. The result is the
    world after the call, with the socket created and its three listeners
    registered, and what the listeners captured. *)
Definition connect (this : ClientV3.t) (url : URL.t) (protocols : list string)
    (requestHeaders : option loc) (σ : store) : connection * world :=
  let '(requestHeaders, σ) :=
    match requestHeaders with
    | Some a => (a, σ)
    | None => Store.alloc [] σ
    end in
  let ws := new (ClientV3.ws this) in
  let σ := Store.push requestHeaders ("Host", URL.host url) σ in
  let σ := Store.push requestHeaders ("Upgrade", "websocket") σ in
  let σ := Store.push requestHeaders ("Connection", "Upgrade") σ in
  let ws := addEventListener TMessage messageListener false ws in
  let ws := addEventListener TClose closeListener false ws in
  let ws := addEventListener TOpen openHandler true ws in
  (mkConn url protocols requestHeaders, mkWorld ws σ []).

(** *** The socket seen through its phases

    The listener list of a socket made by [connect] takes few shapes:
    the handshake listeners are in place ([Awaiting]), or the two relays
    are ([Established]), or neither ([Dead]); next to them the [open]
    handler is registered until it has run. *)

Inductive stage := Awaiting | Established | Dead.

Record phase := mkPhase {
  ph_stage : stage;
  ph_open_pending : bool;
  ph_ready : readyState
}.

Definition listeners_of (st : stage) (open_pending : bool) : list registration :=
  let open := if open_pending then [mkReg TOpen openHandler true] else [] in
  match st with
  | Awaiting =>
      [mkReg TMessage messageListener false; mkReg TClose closeListener false]
      ++ open
  | Established =>
      open ++ [mkReg TMessage relayMessage false; mkReg TClose relayClose false]
  | Dead => open
  end.

(** What [messageListener] makes of the first frame: the protocol it
    hands to [onopen], or the exception it throws. *)
Definition reply (d : data) : result (option JSON.json) :=
  match d with
  | Text text =>
      match JSON_parse text with
      | Some message =>
          ty ← prop message "type";
          if is_not_open ty
          then Throw (TypeError "message was not of open type")
          else prop message "protocol"
      | None => Throw SyntaxError
      end
  | _ => Throw (TypeError "the first websocket message was not a text frame")
  end.

(** One input in a phase: the next phase and what is observed. [hello] is
    the payload of the [open] handler. *)
Definition phase_step (hello : data) (p : phase) (i : input) : phase * list action :=
  match i with
  | Event EvOpen =>
      let rd := match ph_ready p with CONNECTING => OPEN | s => s end in
      (mkPhase (ph_stage p) false rd,
       if ph_open_pending p then
         match rd with
         | CONNECTING => [Thrown InvalidStateError]
         | OPEN => [Sent Handshake hello]
         | CLOSING | CLOSED => []
         end
       else [])
  | Event (EvMessage d) =>
      match ph_stage p with
      | Awaiting =>
          match reply d with
          | Ok protocol =>
              (mkPhase Established (ph_open_pending p) (ph_ready p),
               [Onopen protocol EmptyString])
          | Throw e =>
              (mkPhase Dead (ph_open_pending p) (ph_ready p), [Thrown e])
          end
      | Established => (p, [Onmessage d])
      | Dead => (p, [])
      end
  | Event (EvClose code reason) =>
      match ph_stage p with
      | Awaiting =>
          (mkPhase Dead (ph_open_pending p) CLOSED, [Onclose code reason])
      | Established =>
          (mkPhase Established (ph_open_pending p) CLOSED, [Onclose code reason])
      | Dead => (mkPhase Dead (ph_open_pending p) CLOSED, [])
      end
  | Event EvError => (p, [])
  | CallSend d =>
      (p,
       match ph_ready p with
       | CONNECTING => [Thrown InvalidStateError]
       | OPEN => [Sent Caller d]
       | CLOSING | CLOSED => []
       end)
  | CallClose _ _ =>
      (mkPhase (ph_stage p) (ph_open_pending p)
               (match ph_ready p with CONNECTING | OPEN => CLOSING | s => s end),
       [])
  end.

(** The phase reached and the trace left by some inputs. *)
Definition observe (hello : data) (s : phase * list action) (i : input) :
  phase * list action :=
  let '(p, out) := phase_step hello s.1 i in (p, s.2 ++ out).

Definition phase_run (hello : data) (s : phase * list action) (inputs : list input) :
  phase * list action :=
  fold_left (observe hello) inputs s.

(** The payload the [open] handler of [c] sends when it runs against the
    store [hp]. *)
Definition hello (c : connection) (hp : store) : data :=
  Text (JSON.stringify
          (connect_message (conn_url c) (conn_protocols c)
                           (Store.read (conn_headers c) hp))).

(** The world of a socket in a phase. *)
Definition world_of (ep : URL.t) (hp : store) (s : phase * list action) : world :=
  mkWorld (mkSocket ep (ph_ready s.1)
                    (listeners_of (ph_stage s.1) (ph_open_pending s.1)))
          hp s.2.

(** The phase [connect] leaves the socket in. *)
Definition initial : phase * list action := (mkPhase Awaiting true CONNECTING, []).

(** Is [d] an Open control message: a text payload that parses as JSON
    with [type] equal to [open]? *)
Definition open_frame (d : data) : bool :=
  match d with
  | Text text =>
      match JSON_parse text with
      | Some (JSON.JObj o) =>
          match Obj.get "type" o with
          | Some (JSON.JStr ty) => String.eqb ty "open"
          | _ => false
          end
      | _ => false
      end
  | _ => false
  end.

End Host.

(** The order in which the host dispatches: [close] is the last event of
    a socket. *)
Fixpoint host_order (inputs : list input) : bool :=
  match inputs with
  | [] => true
  | Event (EvClose _ _) :: r =>
      forallb (fun i => match i with Event _ => false | _ => true end) r
  | _ :: r => host_order r
  end.

(** The calls of [onopen] and of [onmessage] in a trace, and the payloads
    sent. *)
Definition opens (t : list action) : list (option JSON.json * string) :=
  omap (fun a => match a with Onopen p x => Some (p, x) | _ => None end) t.

Definition messages (t : list action) : list data :=
  omap (fun a => match a with Onmessage d => Some d | _ => None end) t.

Definition sent (t : list action) : list (sender * data) :=
  omap (fun a => match a with Sent who d => Some (who, d) | _ => None end) t.

Definition thrown (t : list action) : list exn :=
  omap (fun a => match a with Thrown e => Some e | _ => None end) t.

(** The frames among some inputs. *)
Definition frames (inputs : list input) : list data :=
  omap (fun i => match i with Event (EvMessage d) => Some d | _ => None end) inputs.

(** The calls of the four callbacks in a trace, in order. *)
Definition is_call (a : action) : bool :=
  match a with
  | Onopen _ _ | Onmessage _ | Onclose _ _ | Onerror _ => true
  | Sent _ _ | Thrown _ => false
  end.

Definition calls (t : list action) : list action := List.filter is_call t.

(** What a transparent relay hands to the caller for some inputs: a call
    of [onmessage] for each frame and a call of [onclose] for each close
    event, in order. *)
Definition relayed (inputs : list input) : list action :=
  omap (fun i =>
          match i with
          | Event (EvMessage d) => Some (Onmessage d)
          | Event (EvClose code reason) => Some (Onclose code reason)
          | _ => None
          end) inputs.

(** The payloads the caller hands to [send] among some inputs. *)
Definition sends (inputs : list input) : list data :=
  omap (fun i => match i with CallSend d => Some d | _ => None end) inputs.

(** Does an input close the socket: a close event, or a call of
    [close]? *)
Definition closing (i : input) : bool :=
  match i with
  | Event (EvClose _ _) | CallClose _ _ => true
  | _ => false
  end.

Definition is_open_event (i : input) : bool :=
  match i with
  | Event EvOpen => true
  | _ => false
  end.

End Ws.


(** ** Sample data *)

Module Sample.

(** [http://host/p] and [https://host/p]. *)
Definition http_base : URL.t :=
  URL.mk "http" EmptyString EmptyString (Some "host") None "/p" None None.

Definition https_base : URL.t :=
  URL.mk "https" EmptyString EmptyString (Some "host") None "/p" None None.

(** [git://host/p], a base whose scheme is not special. *)
Definition git_base : URL.t :=
  URL.mk "git" EmptyString EmptyString (Some "host") None "/p" None None.

(** [https://example.com:8443/x?y=1], a remote. *)
Definition remote : URL.t :=
  URL.mk "https" EmptyString EmptyString (Some "example.com") (Some 8443%N)
         "/x" (Some "y=1") None.

Definition client : ClientV3.t := ClientV3.constructor http_base.

(** A fingerprint function, [md5] being outside the sources. *)
Definition md5 (text : string) : string := Js.decimal (N.of_nat (String.length text)).

(** A tunnel that answers every request with the same response. *)
Definition tunnel (r : Http.Response) : string -> Http.RequestInit -> result Http.Response :=
  fun _ _ => Ok r.

(** A tunnel that fails, reporting the [x-bare-headers] it was sent. *)
Definition echo : string -> Http.RequestInit -> result Http.Response :=
  fun _ options =>
    Throw (FetchError
             (default EmptyString
                (hs ← Http.headers options; Headers.get "x-bare-headers" hs))).

(** Physical 200 with the three [x-bare-] headers, [x-bare-headers] being
    an array of entries. *)
Definition created_array : Http.Response :=
  Http.mkResponse 200
    [("x-bare-status", "201"); ("x-bare-status-text", "Created");
     ("x-bare-headers", Js.dq "[['content-type','text/plain']]")]
    "hello".

(** The same with [x-bare-headers] an object. *)
Definition created_object : Http.Response :=
  Http.mkResponse 200
    [("x-bare-status", "201"); ("x-bare-status-text", "Created");
     ("x-bare-headers", Js.dq "{'content-type':'text/plain'}")]
    "hello".

(** Physical 404 with a JSON body, and physical 502 with a body that is
    not JSON. *)
Definition not_found : Http.Response :=
  Http.mkResponse 404 [] (Js.dq "{'message':'not found'}").

Definition bad_gateway : Http.Response :=
  Http.mkResponse 502 [] "<html>Bad Gateway</html>".

(** Physical 200 whose chunks of [x-bare-headers] have a gap, and
    physical 200 whose [x-bare-headers] is not JSON. *)
Definition gapped : Http.Response :=
  Http.mkResponse 200
    [("x-bare-status", "200"); ("x-bare-headers", "{"); ("x-bare-headers-2", "}")]
    "hello".

Definition garbled : Http.Response :=
  Http.mkResponse 200
    [("x-bare-status", "200"); ("x-bare-status-text", "OK");
     ("x-bare-headers", "content-type: text/plain")]
    "hello".

(** A store with one caller array at address 1. *)
Definition heap1 (h : RawHeaders) : store := {[ 1%positive := h ]}.

(** [request] and [connect] run with [JSON.parse], the codec above with a
    threshold of 3072 characters, and a tunnel that answers [r]. *)
Definition request (r : Http.Response) (h : RawHeaders) :
  store * result Http.TransferrableResponse :=
  Http.request JSON.parse md5 (tunnel r) Codec.joinHeaders
               (Codec.splitHeaders 3072) client remote "GET" None
               1%positive None (heap1 h).

(** The same against the tunnel [echo]. *)
Definition request_echo (h : RawHeaders) :
  store * result Http.TransferrableResponse :=
  Http.request JSON.parse md5 echo Codec.joinHeaders
               (Codec.splitHeaders 3072) client remote "GET" None
               1%positive None (heap1 h).

Definition connect (h : RawHeaders) : Ws.connection * Ws.world :=
  Ws.connect client remote ["chat"] (Some 1%positive) (heap1 h).

Definition open_frame : string :=
  Js.dq "{'type':'open','protocol':'chat','setCookies':[]}".

End Sample.
(** * Properties *)

#[local] Arguments String.append !_ _ / : simpl nomatch.

(** ** Objects built from entries *)

Section ObjFacts.
Context {V : Type}.
Implicit Types (o : Obj.t V) (l : list (string * V)) (k : string) (v : V).

Lemma Obj_get_app k o1 o2 :
  Obj.get k (o1 ++ o2) =
  match Obj.get k o1 with Some v => Some v | None => Obj.get k o2 end.
Proof.
  induction o1 as [|[k' v'] o1 IH]; simpl; [done|].
  destruct (String.eqb k' k); [done|apply IH].
Qed.

Lemma Obj_get_replace k k' v o :
  Obj.get k (Obj.replace k' v o) =
  if String.eqb k' k && Obj.has k' o then Some v else Obj.get k o.
Proof.
  unfold Obj.has. induction o as [|[k1 v1] o IH]; simpl.
  - by rewrite andb_false_r.
  - destruct (String.eqb_spec k1 k') as [->|Hne]; simpl.
    + rewrite andb_true_r. by destruct (String.eqb k' k).
    + destruct (String.eqb_spec k1 k) as [->|Hne'].
      * destruct (String.eqb_spec k' k) as [->|_]; [done|]. done.
      * apply IH.
Qed.

Lemma Obj_get_add_ne k k' v o :
  k' ≠ k → Obj.get k (Obj.add k' v o) = Obj.get k o.
Proof.
  intros Hne. induction o as [|[k1 v1] o IH]; simpl.
  - by apply String.eqb_neq in Hne as ->.
  - destruct (Obj.before k' k1); simpl.
    + by apply String.eqb_neq in Hne as ->.
    + destruct (String.eqb k1 k); [done|apply IH].
Qed.

Lemma Obj_get_add_eq k v o :
  Obj.get k o = None → Obj.get k (Obj.add k v o) = Some v.
Proof.
  induction o as [|[k1 v1] o IH]; simpl.
  - by rewrite String.eqb_refl.
  - destruct (String.eqb k1 k) eqn:E; [done|]. intros Hn.
    destruct (Obj.before k k1); simpl.
    + by rewrite String.eqb_refl.
    + rewrite E. by apply IH.
Qed.

Lemma Obj_get_set k k' v o :
  Obj.get k (Obj.set k' v o) = if String.eqb k' k then Some v else Obj.get k o.
Proof.
  unfold Obj.set. destruct (Obj.has k' o) eqn:Hhas.
  - rewrite Obj_get_replace, Hhas. by rewrite andb_true_r.
  - destruct (String.eqb_spec k' k) as [->|Hne].
    + apply Obj_get_add_eq. unfold Obj.has in Hhas.
      by destruct (Obj.get k o).
    + by apply Obj_get_add_ne.
Qed.

Lemma Obj_get_fold_set k l o :
  Obj.get k (fold_left (fun o e => Obj.set e.1 e.2 o) l o) =
  match Obj.last_value k l with Some v => Some v | None => Obj.get k o end.
Proof.
  unfold Obj.last_value. revert o. induction l as [|[k' v'] l IH]; intros o; simpl.
  - done.
  - rewrite IH, Obj_get_app, Obj_get_set. simpl.
    destruct (Obj.get k (rev l)); [done|].
    by destruct (String.eqb k' k).
Qed.

(** Every name of the entries is a property of the object, with the last
    value the entries give it. *)
Lemma Obj_get_fromEntries k l : Obj.get k (Obj.fromEntries l) = Obj.last_value k l.
Proof.
  unfold Obj.fromEntries. rewrite Obj_get_fold_set. simpl.
  by destruct (Obj.last_value k l).
Qed.

Lemma Obj_add_last k v o :
  Obj.array_index k = None → Obj.add k v o = o ++ [(k, v)].
Proof.
  intros Hk. induction o as [|[k1 v1] o IH]; simpl; [done|].
  unfold Obj.before. rewrite Hk. by rewrite IH.
Qed.

Lemma Obj_get_None_not_in k o :
  k ∉ List.map fst o → Obj.get k o = None.
Proof.
  induction o as [|[k1 v1] o IH]; simpl; [done|].
  intros Hnin. apply not_elem_of_cons in Hnin as [Hne Hnin].
  apply String.eqb_neq in Hne. rewrite String.eqb_sym, Hne. by apply IH.
Qed.

Lemma Obj_fold_set_fresh l o :
  NoDup (List.map fst l) →
  (∀ k, k ∈ List.map fst l → k ∉ List.map fst o) →
  Forall (fun e => Obj.array_index e.1 = None) l →
  fold_left (fun o e => Obj.set e.1 e.2 o) l o = o ++ l.
Proof.
  revert o. induction l as [|[k v] l IH]; intros o Hnd Hfresh Hidx; simpl.
  - by rewrite app_nil_r.
  - simpl in Hnd. apply NoDup_cons in Hnd as [Hk Hnd].
    apply Forall_cons in Hidx as [Hkidx Hidx]. simpl in Hkidx.
    assert (Obj.set k v o = o ++ [(k, v)]) as ->.
    { unfold Obj.set, Obj.has. rewrite Obj_get_None_not_in.
      - by apply Obj_add_last.
      - apply Hfresh. simpl. left. }
    rewrite IH; [by rewrite <- app_assoc| done | | done].
    intros k' Hk'. rewrite map_app. simpl. rewrite elem_of_app.
    intros [Hin|Hin].
    + revert Hin. apply Hfresh. simpl. by right.
    + apply list_elem_of_singleton in Hin. by subst.
Qed.

(** Entries with pairwise distinct names, none of them an array index,
    come back as they are. *)
Lemma Obj_fromEntries_id l :
  NoDup (List.map fst l) →
  Forall (fun e => Obj.array_index e.1 = None) l →
  Obj.fromEntries l = l.
Proof.
  intros Hnd Hidx. unfold Obj.fromEntries.
  rewrite Obj_fold_set_fresh; [done|done| |done].
  intros k _. simpl. apply not_elem_of_nil.
Qed.

End ObjFacts.

(** ** The host primitives on small inputs *)

Example parse_open_frame :
  JSON.parse Sample.open_frame =
  Some (JSON.JObj [("type", JSON.JStr "open"); ("protocol", JSON.JStr "chat");
                   ("setCookies", JSON.JArr [])]).
Proof. reflexivity. Qed.

Example parse_array_of_entries :
  JSON.parse (Js.dq "[['content-type','text/plain']]") =
  Some (JSON.JArr [JSON.JArr [JSON.JStr "content-type"; JSON.JStr "text/plain"]]).
Proof. reflexivity. Qed.

Example parse_repeated_member :
  JSON.parse (Js.dq "{ 'b': 1.5e3, 'a': [true, null], '7': 'x', 'b': {} }") =
  Some (JSON.JObj [("7", JSON.JStr "x"); ("b", JSON.JObj []);
                   ("a", JSON.JArr [JSON.JBool true; JSON.JNull])]).
Proof. reflexivity. Qed.

Example parse_rejects :
  JSON.parse "<html>Bad Gateway</html>" = None
  ∧ JSON.parse (Js.dq "{'a':1,}") = None
  ∧ JSON.parse "01" = None
  ∧ JSON.parse EmptyString = None.
Proof. repeat split. Qed.

Example stringify_escapes :
  JSON.stringify (JSON.JArr [JSON.JStr (Js.dq "say 'hi'"); JSON.JStr "a\b"])
  = String "[" (String Js.dquote
      ("say \" +:+ Js.str1 Js.dquote +:+ "hi\" +:+ Js.str1 Js.dquote
       +:+ Js.str1 Js.dquote +:+ "," +:+ Js.str1 Js.dquote +:+ "a\\b"
       +:+ Js.str1 Js.dquote +:+ "]")).
Proof. reflexivity. Qed.

Example fromEntries_order :
  Obj.fromEntries [("b", 1); ("10", 2); ("a", 3); ("9", 4); ("b", 5)]
  = [("9", 4); ("10", 2); ("b", 5); ("a", 3)].
Proof. reflexivity. Qed.

Example parseInt_samples :
  Js.parseInt "201" = Js.Int 201
  ∧ Js.parseInt " 12px" = Js.Int 12
  ∧ Js.parseInt "-0x1F" = Js.Int (-31)
  ∧ Js.parseInt "Created" = Js.NaN.
Proof. repeat split. Qed.

Example href_remote : URL.href Sample.remote = "https://example.com:8443/x?y=1".
Proof. reflexivity. Qed.

Example host_remote : URL.host Sample.remote = "example.com:8443".
Proof. reflexivity. Qed.

Example set_protocol_ignored :
  URL.set_protocol "ws:" Sample.git_base = Sample.git_base
  ∧ URL.set_protocol "1ws" Sample.http_base = Sample.http_base
  ∧ URL.href (URL.set_protocol "WSS" Sample.http_base) = "wss://host/p".
Proof. repeat split. Qed.

Example split_long_value :
  Codec.splitHeaders 4 [("a", "0123456789"); ("b", "xy")]
  = [("a", "0123"); ("a-1", "4567"); ("a-2", "89"); ("b", "xy")].
Proof. reflexivity. Qed.

Example join_gap :
  Codec.joinHeaders [("a", "01"); ("a-2", "23")] = Throw CodecError.
Proof. reflexivity. Qed.

Example first_frame_binary :
  Ws.trace (Ws.run JSON.parse (Sample.connect []).1 (Sample.connect []).2
                   [Ws.Event Ws.EvOpen; Ws.Event (Ws.EvMessage (Ws.Blob "x"));
                    Ws.Event (Ws.EvMessage (Ws.Text "y"));
                    Ws.Event (Ws.EvClose 1000 "bye")])
  = [Ws.Sent Ws.Handshake (Ws.hello (Sample.connect []).1 (Ws.heap (Sample.connect []).2));
     Ws.Thrown (TypeError "the first websocket message was not a text frame")].
Proof. reflexivity. Qed.

(** ** Endpoint derivation *)

Lemma string_length_app (a b : string) :
  String.length (a +:+ b) = (String.length a + String.length b)%nat.
Proof. induction a as [|c a IH]; simpl; [done|by rewrite IH]. Qed.

Lemma string_app_inj_r (a b c : string) : a +:+ c = b +:+ c → a = b.
Proof.
  revert b. induction a as [|x a IH]; intros [|y b] H; simpl in *.
  - done.
  - apply (f_equal String.length) in H. simpl in H.
    rewrite string_length_app in H. lia.
  - apply (f_equal String.length) in H. simpl in H.
    rewrite string_length_app in H. lia.
  - injection H as -> H. f_equal. by apply IH.
Qed.

Lemma protocol_eqb (u : URL.t) (s : string) :
  String.eqb (URL.protocol u) (s +:+ ":") = String.eqb (URL.scheme u) s.
Proof.
  unfold URL.protocol.
  destruct (String.eqb_spec (URL.scheme u) s) as [->|Hne].
  - apply String.eqb_refl.
  - apply String.eqb_neq. intros H. by apply string_app_inj_r in H.
Qed.

(** The constructor reads [this.base] twice and nothing else. *)
Lemma constructor_from_base (server : URL.t) :
  let c := ClientV3.constructor server in
  let base := Client.base (ClientV3.super c) in
  ClientV3.http c = base
  ∧ ClientV3.ws c =
      if String.eqb (URL.scheme base) "https"
      then URL.set_protocol "wss:" base
      else URL.set_protocol "ws:" base.
Proof.
  simpl. unfold ClientV3.constructor, URL.new. simpl. split; [done|].
  change "https:" with ("https" +:+ ":"). by rewrite protocol_eqb.
Qed.

(** The two assignments of the constructor, unfolded. *)
Lemma set_protocol_ws (u : URL.t) :
  URL.set_protocol "ws:" u =
    if negb (URL.special (URL.scheme u)) || URL.file_without_host u then u
    else URL.mk "ws" (URL.username u) (URL.password u) (URL.hostname u)
                (if URL.eqb_port (URL.port u) (Some 80%N) then None else URL.port u)
                (URL.pathname u) (URL.query u) (URL.fragment u).
Proof.
  unfold URL.set_protocol, URL.file_without_host.
  change (URL.scheme_start_state _) with (Some "ws"). cbv beta iota.
  change (URL.special "ws") with true. change (String.eqb "ws" "file") with false.
  change (URL.default_port "ws") with (Some 80%N).
  rewrite andb_false_r. by destruct (URL.special (URL.scheme u)).
Qed.

Lemma set_protocol_wss (u : URL.t) :
  URL.set_protocol "wss:" u =
    if negb (URL.special (URL.scheme u)) || URL.file_without_host u then u
    else URL.mk "wss" (URL.username u) (URL.password u) (URL.hostname u)
                (if URL.eqb_port (URL.port u) (Some 443%N) then None else URL.port u)
                (URL.pathname u) (URL.query u) (URL.fragment u).
Proof.
  unfold URL.set_protocol, URL.file_without_host.
  change (URL.scheme_start_state _) with (Some "wss"). cbv beta iota.
  change (URL.special "wss") with true. change (String.eqb "wss" "file") with false.
  change (URL.default_port "wss") with (Some 443%N).
  rewrite andb_false_r. by destruct (URL.special (URL.scheme u)).
Qed.

(** C8. With [base] the base URL of the client ([this.base]), the HTTP
    tunnel endpoint is [base] unchanged, and for a [base] of scheme http
    or https the WebSocket tunnel endpoint is [base] with http replaced
    by ws and https by wss: credentials, host, port, path, query and
    fragment are those of [base]. *)
Theorem constructor_endpoints (server : URL.t) :
  let c := ClientV3.constructor server in
  let base := Client.base (ClientV3.super c) in
  URL.wf base = true →
  ClientV3.http c = base
  ∧ (URL.scheme base = "http" → ClientV3.ws c = URL.with_scheme "ws" base)
  ∧ (URL.scheme base = "https" → ClientV3.ws c = URL.with_scheme "wss" base).
Proof.
  intros c base Hwf.
  destruct (constructor_from_base server) as [Hhttp Hws]. fold c base in Hhttp, Hws.
  split; [done|]. rewrite Hws, set_protocol_ws, set_protocol_wss.
  unfold URL.file_without_host.
  destruct base as [sch us pw ho po pa qu fr]. unfold URL.wf in Hwf.
  simpl in *. split; intros ->; simpl; unfold URL.with_scheme; simpl;
    f_equal; destruct po as [p|]; try done; simpl in *.
  - by destruct (p =? 80)%N.
  - by destruct (p =? 443)%N.
Qed.

Lemma constructor_endpoints_witness :
  ClientV3.http Sample.client = Sample.http_base
  ∧ URL.href (ClientV3.ws Sample.client) = "ws://host/p"
  ∧ URL.href (ClientV3.ws (ClientV3.constructor Sample.https_base)) = "wss://host/p".
Proof.
  destruct (constructor_endpoints Sample.http_base eq_refl) as (H1 & H2 & _).
  destruct (constructor_endpoints Sample.https_base eq_refl) as (_ & _ & H3).
  split; [exact H1|]. split.
  - unfold Sample.client. rewrite (H2 eq_refl). reflexivity.
  - rewrite (H3 eq_refl). reflexivity.
Defined.

(** C10, as the claim states it, fails on a base whose scheme is not
    special: the assignment to [protocol] is then ignored. *)
Lemma ws_scheme_counterexample :
  let c := ClientV3.constructor Sample.git_base in
  URL.href (Client.base (ClientV3.super c)) = "git://host/p"
  ∧ URL.protocol (Client.base (ClientV3.super c)) ≠ "https:"
  ∧ URL.protocol (ClientV3.ws c) = "git:"
  ∧ URL.protocol (ClientV3.ws c) ≠ "ws:"
  ∧ URL.href (ClientV3.ws c) = "git://host/p".
Proof. cbv zeta. split_and!; (reflexivity || discriminate). Qed.

(** C10, amended. An https base yields wss and no other base does. A
    base of another special scheme (http, ws, wss, ftp, or file with a
    host that is not empty) yields ws. A base whose scheme is not special
    keeps its scheme, and so does a file base with an empty host. *)
Theorem ws_scheme_by_base (server : URL.t) :
  let c := ClientV3.constructor server in
  let base := Client.base (ClientV3.super c) in
  (URL.scheme base = "https" → URL.scheme (ClientV3.ws c) = "wss")
  ∧ (URL.scheme base ≠ "https" →
     URL.special (URL.scheme base) = true →
     ¬ (URL.scheme base = "file" ∧ URL.hostname base = Some EmptyString) →
     URL.scheme (ClientV3.ws c) = "ws")
  ∧ (URL.special (URL.scheme base) = false →
     URL.scheme (ClientV3.ws c) = URL.scheme base)
  ∧ (URL.scheme base = "file" → URL.hostname base = Some EmptyString →
     URL.scheme (ClientV3.ws c) = "file")
  ∧ (URL.scheme (ClientV3.ws c) = "wss" → URL.scheme base = "https").
Proof.
  intros c base.
  destruct (constructor_from_base server) as [_ Hws]. fold c base in Hws.
  rewrite Hws, set_protocol_ws, set_protocol_wss. unfold URL.file_without_host.
  destruct base as [sch us pw ho po pa qu fr]. simpl.
  destruct (String.eqb_spec sch "https") as [->|Hne]; simpl.
  { repeat split; done. }
  match goal with
  | |- context [URL.scheme (if ?b then ?x else ?y)] =>
      replace (URL.scheme (if b then x else y))
        with (if b then sch else "ws") by (by destruct b)
  end.
  repeat split.
  - done.
  - intros _ Hsp Hfile. rewrite Hsp. simpl.
    destruct (String.eqb_spec sch "file") as [->|_]; [|done]. simpl.
    destruct ho as [h|]; [|done].
    destruct (String.eqb_spec h EmptyString) as [->|_]; [|done].
    by destruct Hfile.
  - intros Hsp. by rewrite Hsp.
  - intros -> ->. done.
  - destruct (URL.special sch) eqn:Hsp; simpl.
    + destruct (String.eqb_spec sch "file") as [->|_]; simpl.
      * by destruct ho as [[|]|].
      * discriminate.
    + intros ->. done.
Qed.

Lemma ws_scheme_by_base_witness :
  URL.scheme (ClientV3.ws (ClientV3.constructor Sample.https_base)) = "wss"
  ∧ URL.scheme (ClientV3.ws (ClientV3.constructor Sample.http_base)) = "ws"
  ∧ URL.scheme (ClientV3.ws (ClientV3.constructor Sample.git_base)) = "git".
Proof.
  split; [|split].
  - apply (ws_scheme_by_base Sample.https_base). reflexivity.
  - apply (ws_scheme_by_base Sample.http_base);
      [discriminate | reflexivity | intros [H _]; discriminate H].
  - apply (ws_scheme_by_base Sample.git_base). reflexivity.
Defined.

(** ** Decoding the tunnel's response *)

Section Decode.

Variable JSON_parse : string -> option JSON.json.
Variable md5 : string -> string.
Variable fetch : string -> Http.RequestInit -> result Http.Response.
Variable joinHeaders : Headers.t -> result Headers.t.
Variable splitHeaders : Headers.t -> Headers.t.

Variables (this : ClientV3.t) (remote : URL.t) (method : string)
          (body : option Http.bodyinit) (a : loc) (signal : option nat)
          (σ : store).

Variable response : Http.Response.

(** The tunnel answers the request with [response]. *)
Hypothesis tunnel_answers :
  ∀ options,
    fetch (URL.toString (ClientV3.http this) +:+ "?cache="
           +:+ md5 (URL.toString remote)) options = Ok response.

Local Abbreviation outcome :=
  (Http.request JSON_parse md5 fetch joinHeaders splitHeaders this remote
                method body a signal σ).2.

Lemma request_outcome :
  outcome =
    readResponse ← Http.readBareResponse JSON_parse joinHeaders response;
    Ok (Http.mkTransferrable (Http.response_body response)
                             (Http.bare_headers readResponse)
                             (Http.bare_status readResponse)
                             (Http.bare_statusText readResponse)).
Proof. unfold Http.request. simpl. by rewrite tunnel_answers. Qed.

Lemma readBareResponse_success (hs : Headers.t) :
  Http.ok response = true →
  joinHeaders (Http.response_headers response) = Ok hs →
  Http.readBareResponse JSON_parse joinHeaders response =
    let st := Js.parseInt <$> Headers.get "x-bare-status" hs in
    let tx := Headers.get "x-bare-status-text" hs in
    match Headers.get "x-bare-headers" hs with
    | Some x =>
        match JSON_parse x with
        | Some v => entries ← Http.Object_entries v; Ok (Http.mkBare (Some entries) st tx)
        | None => Throw SyntaxError
        end
    | None => Ok (Http.mkBare None st tx)
    end.
Proof.
  intros Hok Hjoin. unfold Http.readBareResponse. rewrite Hok, Hjoin. simpl.
  destruct (Headers.get "x-bare-status" hs), (Headers.get "x-bare-status-text" hs),
    (Headers.get "x-bare-headers" hs) as [x|]; simpl; try done;
    destruct (JSON_parse x) as [v|]; simpl; try done;
    by destruct (Http.Object_entries v).
Qed.

(** C1, amended. For a physical response with a success status,
    [request] returns a logical response whose status is [x-bare-status]
    read by [parseInt] (201 for 201), whose statusText is
    [x-bare-status-text] as it is, and whose headers are the
    [Object.entries] of the JSON value decoded from [x-bare-headers]: the
    members of an object, in order. Each of the three fields is left unset
    when its header is absent. *)
Theorem request_decodes (hs : Headers.t) :
  Http.ok response = true →
  joinHeaders (Http.response_headers response) = Ok hs →
  (∀ x, Headers.get "x-bare-headers" hs = Some x →
        ∃ v entries, JSON_parse x = Some v ∧ Http.Object_entries v = Ok entries) →
  ∃ r, outcome = Ok r
     ∧ Http.t_body r = Http.response_body response
     ∧ Http.t_status r = Js.parseInt <$> Headers.get "x-bare-status" hs
     ∧ Http.t_statusText r = Headers.get "x-bare-status-text" hs
     ∧ (Headers.get "x-bare-headers" hs = None → Http.t_headers r = None)
     ∧ (∀ x o, Headers.get "x-bare-headers" hs = Some x →
               JSON_parse x = Some (JSON.JObj o) →
               Http.t_headers r = Some o)
     ∧ (∀ x l, Headers.get "x-bare-headers" hs = Some x →
               JSON_parse x = Some (JSON.JArr l) →
               Http.t_headers r = Some (Http.array_entries l)).
Proof.
  intros Hok Hjoin Hdec. rewrite request_outcome.
  rewrite (readBareResponse_success hs Hok Hjoin). simpl.
  destruct (Headers.get "x-bare-headers" hs) as [x|].
  - destruct (Hdec x eq_refl) as (v & es & Hv & Hes). rewrite Hv, Hes. simpl.
    eexists. split; [done|]. simpl. repeat split; try done.
    + intros ? o [= <-] Ho. rewrite Hv in Ho. injection Ho as ->.
      simpl in Hes. by injection Hes as <-.
    + intros ? l [= <-] Hl. rewrite Hv in Hl. injection Hl as ->.
      simpl in Hes. by injection Hes as <-.
  - simpl. eexists. split; [done|]. simpl. repeat split; done.
Qed.

(** C3, amended. For a physical response with a non-success status whose
    body parses as JSON, [request] fails with the tunnel fault carrying
    that status and the parsed body; when the body does not parse, it
    fails with the SyntaxError of the parse. Either way no logical
    response is produced, and no outcome is both a tunnel fault and a
    logical response. *)
Theorem request_tunnel_fault :
  Http.ok response = false →
  (∀ v, JSON_parse (Http.response_body response) = Some v →
        outcome = Throw (BareError (Http.status response) v))
  ∧ (JSON_parse (Http.response_body response) = None →
     outcome = Throw SyntaxError)
  ∧ (∀ r, outcome ≠ Ok r)
  ∧ (∀ r st b, ¬ (outcome = Ok r ∧ outcome = Throw (BareError st b))).
Proof.
  intros Hok. rewrite request_outcome. unfold Http.readBareResponse, Http.json.
  rewrite Hok. simpl.
  destruct (JSON_parse (Http.response_body response)) as [v|]; simpl.
  - repeat split; try done. + by intros ? [= ->]. + by intros ? ? ? [? ?].
  - repeat split; try done. by intros ? ? ? [? ?].
Qed.

End Decode.

Lemma request_decodes_witness :
  (Sample.request Sample.created_object []).2 =
    Ok (Http.mkTransferrable "hello"
          (Some [("content-type", JSON.JStr "text/plain")])
          (Some (Js.Int 201)) (Some "Created")).
Proof.
  destruct (request_decodes JSON.parse Sample.md5 (Sample.tunnel Sample.created_object)
              Codec.joinHeaders (Codec.splitHeaders 3072) Sample.client Sample.remote
              "GET" None 1%positive None (Sample.heap1 []) Sample.created_object
              (fun _ => eq_refl) (Http.response_headers Sample.created_object)
              eq_refl eq_refl)
    as (r & Hr & Hbody & Hst & Htx & _ & Hobj & _).
  { intros x [= <-]. by eexists _, _. }
  unfold Sample.request. rewrite Hr. destruct r as [b hd st tx]. simpl in *.
  rewrite Hbody, Hst, Htx.
  by rewrite (Hobj _ [("content-type", JSON.JStr "text/plain")] eq_refl eq_refl).
Defined.

(** C1, as the claim states it, fails: with [x-bare-headers] the
    array-of-entries text, the headers of the result are the entries of
    that array, a single entry under the index 0. *)
Lemma request_decodes_counterexample :
  Http.ok Sample.created_array = true
  ∧ Codec.joinHeaders (Http.response_headers Sample.created_array) =
      Ok [("x-bare-status", "201"); ("x-bare-status-text", "Created");
          ("x-bare-headers", Js.dq "[['content-type','text/plain']]")]
  ∧ (Sample.request Sample.created_array []).2 =
      Ok (Http.mkTransferrable "hello"
            (Some [("0", JSON.JArr [JSON.JStr "content-type"; JSON.JStr "text/plain"])])
            (Some (Js.Int 201)) (Some "Created"))
  ∧ Http.t_headers <$> (Sample.request Sample.created_array []).2 ≠
      Ok (Some [("content-type", JSON.JStr "text/plain")]).
Proof. repeat split; try reflexivity. vm_compute. discriminate. Qed.

Lemma request_tunnel_fault_witness :
  Http.ok Sample.not_found = false
  ∧ (Sample.request Sample.not_found []).2 =
      Throw (BareError 404 (JSON.JObj [("message", JSON.JStr "not found")])).
Proof.
  split; [reflexivity|].
  apply (request_tunnel_fault JSON.parse Sample.md5 (Sample.tunnel Sample.not_found)
           Codec.joinHeaders (Codec.splitHeaders 3072) Sample.client Sample.remote
           "GET" None 1%positive None (Sample.heap1 []) Sample.not_found
           (fun _ => eq_refl) eq_refl).
  reflexivity.
Defined.

(** C3, as the claim states it, fails: a non-success response whose body
    is not JSON makes [request] fail with the SyntaxError of the parse,
    not with a tunnel fault. *)
Lemma request_tunnel_fault_counterexample :
  Http.ok Sample.bad_gateway = false
  ∧ (Sample.request Sample.bad_gateway []).2 = Throw SyntaxError
  ∧ ∀ b, (Sample.request Sample.bad_gateway []).2 ≠ Throw (BareError 502 b).
Proof. repeat split; try reflexivity. intros b. vm_compute. discriminate. Qed.

(** ** The socket and its phases *)

Section Phases.

Variable JSON_parse : string -> option JSON.json.
Variable c : Ws.connection.

(** [messageListener] on the first frame. *)
Lemma call_messageListener ep hp op rd t d :
  Ws.call JSON_parse c Ws.messageListener (Ws.EvMessage d)
    (Ws.world_of ep hp (Ws.mkPhase Ws.Awaiting op rd, t)) =
  match Ws.reply JSON_parse d with
  | Ok protocol =>
      (Ws.world_of ep hp (Ws.mkPhase Ws.Established op rd,
                       t ++ [Ws.Onopen protocol EmptyString]), Ok tt)
  | Throw e => (Ws.world_of ep hp (Ws.mkPhase Ws.Dead op rd, t), Throw e)
  end.
Proof.
  unfold Ws.reply, Ws.world_of. destruct d as [text| |]; [|by destruct op..].
  unfold Ws.call, Ws.cleanup, Ws.parse, Ws.bindM, Ws.on_socket, Ws.lift, Ws.log,
    Ws.throw, Ws.ret. simpl.
  destruct (JSON_parse text) as [message|]; [|by destruct op].
  destruct (Ws.prop message "type") as [ty|e]; simpl; [|by destruct op].
  destruct (Ws.is_not_open ty); [by destruct op|].
  destruct (Ws.prop message "protocol") as [pr|e]; simpl; by destruct op.
Qed.

(** The socket moves as its phase does. *)
Lemma step_sim ep hp s i :
  Ws.step JSON_parse c (Ws.world_of ep hp s) i = Ws.world_of ep hp (Ws.observe JSON_parse (Ws.hello c hp) s i).
Proof.
  destruct s as [[st op rd] t].
  destruct i as [[|d|code reason|]|d|code reason].
  - (* open *)
    unfold Ws.observe, Ws.hello, Ws.world_of.
    destruct st, op, rd; cbn; rewrite ?app_nil_r; reflexivity.
  - (* message *)
    destruct st.
    + unfold Ws.step, Ws.dispatch, Ws.invoke, Ws.observe, Ws.world_of.
      destruct op;
        [pose proof (call_messageListener ep hp true rd t d) as H
        |pose proof (call_messageListener ep hp false rd t d) as H];
        unfold Ws.world_of in H; cbn -[Ws.call Ws.reply] in H |- *;
        rewrite H; destruct (Ws.reply JSON_parse d); reflexivity.
    + unfold Ws.observe, Ws.world_of. destruct op; reflexivity.
    + unfold Ws.observe, Ws.world_of.
      destruct op; cbn; rewrite ?app_nil_r; reflexivity.
  - (* close *)
    unfold Ws.observe, Ws.world_of.
    destruct st, op; cbn; rewrite ?app_nil_r; reflexivity.
  - (* error *)
    unfold Ws.observe, Ws.world_of.
    destruct st, op; cbn; rewrite ?app_nil_r; reflexivity.
  - (* send *)
    unfold Ws.observe, Ws.world_of.
    destruct rd; cbn; rewrite ?app_nil_r; reflexivity.
  - (* close() *)
    unfold Ws.observe, Ws.world_of.
    destruct rd; cbn; rewrite ?app_nil_r; reflexivity.
Qed.

Lemma run_sim ep hp s inputs :
  Ws.run JSON_parse c (Ws.world_of ep hp s) inputs =
  Ws.world_of ep hp (Ws.phase_run JSON_parse (Ws.hello c hp) s inputs).
Proof.
  revert s. induction inputs as [|i inputs IH]; intros s; simpl; [done|].
  rewrite step_sim, IH. done.
Qed.

Lemma connect_initial this url protocols rh σ :
  let cw := Ws.connect this url protocols rh σ in
  cw.1 = Ws.mkConn url protocols (Ws.conn_headers cw.1)
  ∧ cw.2 = Ws.world_of (ClientV3.ws this) (Ws.heap cw.2) Ws.initial.
Proof. by destruct rh. Qed.

End Phases.

(** ** Traces of the phases *)

Lemma opens_app t1 t2 : Ws.opens (t1 ++ t2) = Ws.opens t1 ++ Ws.opens t2.
Proof. apply omap_app. Qed.

Lemma messages_app t1 t2 : Ws.messages (t1 ++ t2) = Ws.messages t1 ++ Ws.messages t2.
Proof. apply omap_app. Qed.

Lemma sent_app t1 t2 : Ws.sent (t1 ++ t2) = Ws.sent t1 ++ Ws.sent t2.
Proof. apply omap_app. Qed.

Section Traces.

Variable JSON_parse : string -> option JSON.json.
Variable hello : Ws.data.

Local Abbreviation step := (Ws.phase_step JSON_parse hello).
Local Abbreviation run := (Ws.phase_run JSON_parse hello).

Implicit Types (p : Ws.phase) (t : list Ws.action) (i : Ws.input)
         (inputs : list Ws.input).

(** A property that holds of the start and is kept by every input holds
    at the end. *)
Lemma phase_run_invariant (P : Ws.phase * list Ws.action → Prop) s inputs :
  P s →
  (∀ s i, P s → P (Ws.observe JSON_parse hello s i)) →
  P (run s inputs).
Proof.
  intros Hs Hstep. revert s Hs.
  induction inputs as [|i inputs IH]; intros s Hs; simpl; [done|].
  apply IH. by apply Hstep.
Qed.

Lemma observe_eq p t i :
  Ws.observe JSON_parse hello (p, t) i = ((step p i).1, t ++ (step p i).2).
Proof. unfold Ws.observe. simpl. by destruct (step p i). Qed.

Lemma phase_run_trace p t inputs :
  run (p, t) inputs = ((run (p, []) inputs).1, t ++ (run (p, []) inputs).2).
Proof.
  revert p t. induction inputs as [|i inputs IH]; intros p t; simpl.
  - by rewrite app_nil_r.
  - rewrite !observe_eq. simpl.
    rewrite (IH _ (t ++ _)), (IH _ (step p i).2). simpl. by rewrite app_assoc.
Qed.

Lemma phase_run_cons p i inputs :
  (run (p, []) (i :: inputs)).2 = (step p i).2 ++ (run ((step p i).1, []) inputs).2.
Proof. simpl. rewrite observe_eq. simpl. by rewrite phase_run_trace. Qed.

(** [reply] accepts exactly the Open control messages. *)
Lemma reply_open_frame d :
  match Ws.reply JSON_parse d with
  | Ok _ => Ws.open_frame JSON_parse d = true
  | Throw e =>
      Ws.open_frame JSON_parse d = false
      ∧ (e = SyntaxError ∨ ∃ m, e = TypeError m)
  end.
Proof.
  unfold Ws.reply, Ws.open_frame. destruct d as [text| |]; [|by eauto..].
  destruct (JSON_parse text) as [[]|]; simpl; eauto.
  destruct (Obj.get "type" o) as [[]|]; simpl; eauto.
  destruct (String.eqb s "open"); simpl; eauto.
Qed.

Lemma reply_accepts text o :
  JSON_parse text = Some (JSON.JObj o) →
  Obj.get "type" o = Some (JSON.JStr "open") →
  Ws.reply JSON_parse (Ws.Text text) = Ok (Obj.get "protocol" o).
Proof. intros Hp Ht. unfold Ws.reply. rewrite Hp. simpl. by rewrite Ht. Qed.

Lemma frames_after_close inputs :
  forallb (fun i => match i with Ws.Event _ => false | _ => true end) inputs = true →
  Ws.frames inputs = [].
Proof.
  induction inputs as [|[]]; simpl; [done|done|auto..].
Qed.

(** Once established, every frame goes to [onmessage] and [onopen] is
    not called again. *)
Lemma established_run p inputs :
  Ws.ph_stage p = Ws.Established →
  Ws.opens (run (p, []) inputs).2 = []
  ∧ Ws.messages (run (p, []) inputs).2 = Ws.frames inputs.
Proof.
  revert p. induction inputs as [|i inputs IH]; intros [st op rd] Hst;
    simpl in Hst; subst st; [done|].
  rewrite phase_run_cons, opens_app, messages_app.
  destruct i as [[|d|code reason|]|d|code reason]; simpl;
    try (destruct op, rd; simpl; by apply IH).
  destruct (IH (Ws.mkPhase Ws.Established op rd) eq_refl) as [-> ->]. done.
Qed.

(** Once dead, neither callback is called. *)
Lemma dead_run p inputs :
  Ws.ph_stage p = Ws.Dead →
  Ws.opens (run (p, []) inputs).2 = []
  ∧ Ws.messages (run (p, []) inputs).2 = [].
Proof.
  revert p. induction inputs as [|i inputs IH]; intros [st op rd] Hst;
    simpl in Hst; subst st; [done|].
  rewrite phase_run_cons, opens_app, messages_app.
  destruct i as [[|d|code reason|]|d|code reason]; simpl;
    try (destruct op, rd; simpl; by apply IH); by apply IH.
Qed.

(** While the first frame is awaited, an input that is neither a frame
    nor a close changes nothing that the callbacks see. *)
Lemma awaiting_other p i :
  Ws.ph_stage p = Ws.Awaiting →
  match i with
  | Ws.Event (Ws.EvMessage _) | Ws.Event (Ws.EvClose _ _) => False
  | _ => True
  end →
  Ws.ph_stage (step p i).1 = Ws.Awaiting
  ∧ Ws.opens (step p i).2 = [] ∧ Ws.messages (step p i).2 = [].
Proof.
  destruct p as [st op rd]. simpl. intros -> Hi.
  destruct i as [[|d|code reason|]|d|code reason]; try done;
    by destruct op, rd.
Qed.

(** While the first frame is awaited: what the first frame decides. *)
Lemma awaiting_run p inputs d rest :
  Ws.ph_stage p = Ws.Awaiting →
  Ws.host_order inputs = true →
  Ws.frames inputs = d :: rest →
  let t := (run (p, []) inputs).2 in
  match Ws.reply JSON_parse d with
  | Ok protocol =>
      Ws.opens t = [(protocol, EmptyString)] ∧ Ws.messages t = rest
  | Throw e => Ws.opens t = [] ∧ Ws.messages t = [] ∧ Ws.Thrown e ∈ t
  end.
Proof.
  revert p. induction inputs as [|i inputs IH]; intros p Hst Hord Hfr; [done|].
  cbv zeta. rewrite phase_run_cons, opens_app, messages_app.
  assert (Hother :
    match i with
    | Ws.Event (Ws.EvMessage _) | Ws.Event (Ws.EvClose _ _) => False
    | _ => True
    end →
    Ws.host_order inputs = true ∧ Ws.frames inputs = d :: rest).
  { by destruct i as [[]| |]. }
  destruct i as [[|d'|code reason|]|d'|code reason].
  2: { (* the first frame *)
    simpl in Hfr. injection Hfr as -> <-. destruct p as [st op rd].
    simpl in Hst. subst st. simpl.
    destruct (Ws.reply JSON_parse d) as [pr|e]; simpl.
    - destruct (established_run (Ws.mkPhase Ws.Established op rd) inputs eq_refl)
        as [-> ->]. done.
    - destruct (dead_run (Ws.mkPhase Ws.Dead op rd) inputs eq_refl) as [-> ->].
      split_and!; [done..|]. apply elem_of_cons. by left. }
  2: { (* a close before any frame *)
    simpl in Hord, Hfr. by rewrite (frames_after_close inputs Hord) in Hfr. }
  all: destruct (Hother I) as [Hord' Hfr'];
    match goal with
    | |- context [Ws.phase_step _ _ ?q ?i] =>
        destruct (awaiting_other q i Hst I) as (Hst' & -> & ->);
        specialize (IH (step q i).1 Hst' Hord' Hfr')
    end;
    cbv zeta in IH; simpl app;
    destruct (Ws.reply JSON_parse d); [exact IH|];
    destruct IH as (? & ? & ?); split_and!; [done..|];
    first [assumption | apply elem_of_app; by right].
Qed.

End Traces.

(** ** The handshake of [connect] *)

Section Handshake.

Variable JSON_parse : string -> option JSON.json.
Variable hello : Ws.data.

Local Abbreviation run := (Ws.phase_run JSON_parse hello).

(** Nothing is sent while the [open] handler is pending; once it has run,
    either the socket was closing and nothing is ever sent, or its payload
    went out first and everything after it comes from the caller. *)
Lemma sent_invariant inputs :
  let s := run Ws.initial inputs in
  if Ws.ph_open_pending s.1
  then Ws.ph_ready s.1 ≠ Ws.OPEN ∧ Ws.sent s.2 = []
  else ((Ws.ph_ready s.1 = Ws.CLOSING ∨ Ws.ph_ready s.1 = Ws.CLOSED)
        ∧ Ws.sent s.2 = [])
       ∨ ∃ rest, Ws.sent s.2 = (Ws.Handshake, hello) :: rest
                 ∧ Forall (fun x => x.1 = Ws.Caller) rest.
Proof.
  cbv zeta. apply phase_run_invariant; [done|].
  intros [[st op rd] t] i H. rewrite observe_eq. simpl in H.
  destruct i as [[|d|code reason|]|d|code reason];
    cbn [Ws.phase_step fst snd Ws.ph_open_pending Ws.ph_ready Ws.ph_stage].
  - (* open *)
    rewrite sent_app. destruct op.
    + destruct H as [Hrd ->]. destruct rd; simpl; try done; eauto.
    + rewrite app_nil_r.
      destruct H as [[[-> | ->] ->] | H]; simpl; eauto.
  - (* a frame *)
    assert (Hout : ∀ x : Ws.phase * list Ws.action,
      x = Ws.phase_step JSON_parse hello (Ws.mkPhase st op rd)
            (Ws.Event (Ws.EvMessage d)) →
      Ws.ph_open_pending x.1 = op ∧ Ws.ph_ready x.1 = rd ∧ Ws.sent x.2 = []).
    { intros x ->. simpl. destruct st; [destruct (Ws.reply _ _)|..]; done. }
    destruct (Hout _ eq_refl) as (Hop & Hrd & Hs). simpl in Hop, Hrd, Hs.
    rewrite sent_app, Hs, app_nil_r, Hop, Hrd. done.
  - (* close *)
    rewrite sent_app.
    replace (Ws.sent _ ++ Ws.sent _) with (Ws.sent t)
      by (destruct st; simpl; by rewrite app_nil_r).
    replace (Ws.ph_open_pending _) with op by (by destruct st).
    replace (Ws.ph_ready _) with Ws.CLOSED by (by destruct st).
    destruct op; [by destruct H|]. destruct H as [[_ ->] | H]; eauto.
  - (* error *)
    by rewrite app_nil_r.
  - (* send *)
    rewrite sent_app. destruct op.
    + destruct H as [Hrd ->]. by destruct rd.
    + destruct H as [[[-> | ->] ->] | (rest & -> & Hrest)]; simpl; eauto.
      right. destruct rd; simpl; rewrite ?app_nil_r; eauto.
      eexists. split; [done|]. apply Forall_app. split; [done|].
      by apply Forall_singleton.
  - (* close() *)
    rewrite app_nil_r. destruct op.
    + destruct H as [Hrd ->]. by destruct rd.
    + destruct H as [[[-> | ->] ->] | H]; simpl; eauto.
Qed.

(** Before the socket reports open, nothing is sent. *)
Lemma sent_before_open inputs :
  Ws.Event Ws.EvOpen ∉ inputs →
  let s := run Ws.initial inputs in
  Ws.ph_ready s.1 ≠ Ws.OPEN ∧ Ws.sent s.2 = [].
Proof.
  cbv zeta. intros Hno.
  assert (∀ s, Ws.ph_ready s.1 ≠ Ws.OPEN ∧ Ws.sent s.2 = [] →
               Ws.ph_ready (run s inputs).1 ≠ Ws.OPEN ∧ Ws.sent (run s inputs).2 = [])
    as Hgen.
  { induction inputs as [|i inputs IH]; intros s Hs; simpl; [done|].
    apply not_elem_of_cons in Hno as [Hi Hno]. apply (IH Hno).
    destruct s as [[st op rd] t]. rewrite observe_eq. simpl in Hs |- *.
    destruct Hs as [Hrd Hs]. rewrite sent_app, Hs.
    destruct i as [[|d|code reason|]|d|code reason]; simpl; try done.
    - destruct st; [destruct (Ws.reply _ _)|..]; done.
    - by destruct st.
    - by destruct rd.
    - by destruct rd. }
  by apply Hgen.
Qed.

(** [onopen] is called at most once, and before it is, [onmessage] is
    not. *)
Lemma callbacks_invariant inputs :
  let s := run Ws.initial inputs in
  match Ws.ph_stage s.1 with
  | Ws.Established =>
      ∃ t1 pr t2, s.2 = t1 ++ Ws.Onopen pr EmptyString :: t2
                  ∧ Ws.opens t1 = [] ∧ Ws.messages t1 = [] ∧ Ws.opens t2 = []
  | _ => Ws.opens s.2 = [] ∧ Ws.messages s.2 = []
  end.
Proof.
  cbv zeta. apply phase_run_invariant; [done|].
  intros [[st op rd] t] i H. rewrite observe_eq. simpl in H.
  destruct st.
  - (* awaiting *)
    destruct H as [Ho Hm].
    destruct i as [[|d|code reason|]|d|code reason]; simpl;
      rewrite ?opens_app, ?messages_app, ?Ho, ?Hm, ?app_nil_r; try done.
    + by destruct op, rd.
    + destruct (Ws.reply JSON_parse d) as [pr|e]; simpl.
      * exists t, pr, []. done.
      * rewrite ?opens_app, ?messages_app, ?Ho, ?Hm. done.
    + by destruct rd.
  - (* established *)
    destruct H as (t1 & pr & t2 & -> & Ho1 & Hm1 & Ho2).
    assert (Hout : Ws.ph_stage (Ws.phase_step JSON_parse hello
                                  (Ws.mkPhase Ws.Established op rd) i).1
                   = Ws.Established
                   ∧ Ws.opens (Ws.phase_step JSON_parse hello
                                 (Ws.mkPhase Ws.Established op rd) i).2 = []).
    { destruct i as [[|d|code reason|]|d|code reason]; simpl; try done;
        by destruct op, rd. }
    destruct Hout as [Hst Hout]. simpl. rewrite Hst.
    eexists t1, pr, (t2 ++ _). rewrite <- app_assoc. simpl.
    split; [done|]. by rewrite opens_app, Ho2, Hout.
  - (* dead *)
    destruct H as [Ho Hm].
    destruct i as [[|d|code reason|]|d|code reason]; simpl;
      rewrite ?opens_app, ?messages_app, ?Ho, ?Hm, ?app_nil_r; try done.
    + by destruct op, rd.
    + by destruct rd.
Qed.

End Handshake.

Section Connect.

Variable JSON_parse : string -> option JSON.json.
Variables (this : ClientV3.t) (url : URL.t) (protocols : list string)
          (requestHeaders : option loc) (σ : store).
Variables (c : Ws.connection) (w : Ws.world).

Hypothesis connected : Ws.connect this url protocols requestHeaders σ = (c, w).

(** The trace of a socket made by [connect] is the trace of its phases. *)
Lemma connect_trace inputs :
  Ws.trace (Ws.run JSON_parse c w inputs) =
  (Ws.phase_run JSON_parse (Ws.hello c (Ws.heap w)) Ws.initial inputs).2.
Proof.
  destruct (connect_initial this url protocols requestHeaders σ) as [_ Hw].
  rewrite connected in Hw. simpl in Hw. rewrite Hw at 1. by rewrite run_sim.
Qed.

Lemma connect_hello :
  Ws.hello c (Ws.heap w) =
  Ws.Text (JSON.stringify
             (Ws.connect_message url protocols
                (Store.read (Ws.conn_headers c) (Ws.heap w)))).
Proof.
  destruct (connect_initial this url protocols requestHeaders σ) as [Hc _].
  rewrite connected in Hc. simpl in Hc. unfold Ws.hello. by rewrite Hc.
Qed.

(** C5. When the first frame the socket receives is a text that parses
    as an object whose [type] is [open], [onopen] is called exactly once,
    with the [protocol] of that object and the empty string, and every
    frame after the first is handed to [onmessage] as it is, in order. *)
Theorem open_once_then_relay inputs frame rest o :
  Ws.host_order inputs = true →
  Ws.frames inputs = Ws.Text frame :: rest →
  JSON_parse frame = Some (JSON.JObj o) →
  Obj.get "type" o = Some (JSON.JStr "open") →
  let t := Ws.trace (Ws.run JSON_parse c w inputs) in
  Ws.opens t = [(Obj.get "protocol" o, EmptyString)] ∧ Ws.messages t = rest.
Proof.
  intros Hord Hfr Hparse Hty. cbv zeta. rewrite connect_trace.
  pose proof (awaiting_run JSON_parse (Ws.hello c (Ws.heap w))
                (Ws.mkPhase Ws.Awaiting true Ws.CONNECTING) inputs
                (Ws.Text frame) rest eq_refl Hord Hfr) as H.
  cbv zeta in H. by rewrite (reply_accepts _ _ _ Hparse Hty) in H.
Qed.

(** C6. When the first frame the socket receives is not a text, or does
    not parse as JSON with [type] equal to [open], neither [onopen] nor
    [onmessage] is ever called, and [messageListener] throws: a
    SyntaxError or a TypeError leaves it. *)
Theorem first_frame_violation inputs d rest :
  Ws.host_order inputs = true →
  Ws.frames inputs = d :: rest →
  Ws.open_frame JSON_parse d = false →
  let t := Ws.trace (Ws.run JSON_parse c w inputs) in
  Ws.opens t = [] ∧ Ws.messages t = []
  ∧ ∃ e, Ws.Thrown e ∈ t ∧ (e = SyntaxError ∨ ∃ m, e = TypeError m).
Proof.
  intros Hord Hfr Hbad. cbv zeta. rewrite connect_trace.
  pose proof (awaiting_run JSON_parse (Ws.hello c (Ws.heap w))
                (Ws.mkPhase Ws.Awaiting true Ws.CONNECTING) inputs
                d rest eq_refl Hord Hfr) as H.
  cbv zeta in H. pose proof (reply_open_frame JSON_parse d) as Hr.
  destruct (Ws.reply JSON_parse d) as [pr|e].
  - congruence.
  - destruct H as (? & ? & ?), Hr as [_ He]. eauto.
Qed.

(** C7. The Connect control message is sent at most once, not before the
    socket reports open, and nothing goes out on the socket before it;
    [onopen] is called at most once, and every call of [onmessage] comes
    after it. *)
Theorem handshake_order inputs :
  let t := Ws.trace (Ws.run JSON_parse c w inputs) in
  let connect_text :=
    JSON.stringify
      (Ws.connect_message url protocols
         (Store.read (Ws.conn_headers c) (Ws.heap w))) in
  (Ws.sent t = []
   ∨ ∃ rest, Ws.sent t = (Ws.Handshake, Ws.Text connect_text) :: rest
             ∧ Forall (fun x => x.1 = Ws.Caller) rest)
  ∧ (Ws.Event Ws.EvOpen ∉ inputs → Ws.sent t = [])
  ∧ (length (Ws.opens t) ≤ 1)%nat
  ∧ (∀ t1 d t2, t = t1 ++ Ws.Onmessage d :: t2 →
                ∃ protocol, Ws.Onopen protocol EmptyString ∈ t1).
Proof.
  cbv zeta. rewrite connect_trace, <- connect_hello.
  set (hello := Ws.hello c (Ws.heap w)).
  pose proof (sent_invariant JSON_parse hello inputs) as Hsent.
  pose proof (callbacks_invariant JSON_parse hello inputs) as Hcb.
  cbv zeta in Hsent, Hcb.
  destruct (Ws.phase_run JSON_parse hello Ws.initial inputs) as [[st op rd] t] eqn:Hrun.
  simpl in *. split_and!.
  - destruct op; [left; by destruct Hsent|].
    destruct Hsent as [[_ ->] | H]; eauto.
  - intros Hno. pose proof (sent_before_open JSON_parse hello inputs Hno) as H.
    cbv zeta in H. rewrite Hrun in H. by destruct H.
  - destruct st.
    + destruct Hcb as [-> _]. simpl. lia.
    + destruct Hcb as (t1 & pr & t2 & -> & Ho1 & _ & Ho2).
      rewrite opens_app, Ho1.
      change (Ws.opens (Ws.Onopen pr EmptyString :: t2))
        with ((pr, EmptyString) :: Ws.opens t2).
      rewrite Ho2. simpl. lia.
    + destruct Hcb as [-> _]. simpl. lia.
  - intros u1 d u2 Ht.
    assert (Hm : Ws.messages t ≠ []).
    { rewrite Ht, messages_app. simpl. by destruct (Ws.messages u1). }
    destruct st; [by destruct Hcb| |by destruct Hcb].
    destruct Hcb as (t1 & pr & t2 & -> & Ho1 & Hm1 & Ho2).
    apply app_eq_inv in Ht as [(k & -> & Hk) | (k & -> & Hk)].
    + destruct k as [|x k]; simpl in Hk; [done|]. injection Hk as <- _.
      rewrite messages_app in Hm1. simpl in Hm1.
      by destruct (Ws.messages u1).
    + destruct k as [|x k]; simpl in Hk; [done|]. injection Hk as <- _.
      exists pr. apply elem_of_app. right. by left.
Qed.

End Connect.

Lemma open_once_then_relay_witness :
  let inputs :=
    [Ws.Event Ws.EvOpen;
     Ws.Event (Ws.EvMessage (Ws.Text Sample.open_frame));
     Ws.Event (Ws.EvMessage (Ws.Text Sample.open_frame));
     Ws.Event (Ws.EvMessage (Ws.Blob "raw"));
     Ws.Event (Ws.EvClose 1000 "bye")] in
  let t := Ws.trace (Ws.run JSON.parse (Sample.connect []).1 (Sample.connect []).2 inputs) in
  Ws.opens t = [(Some (JSON.JStr "chat"), EmptyString)]
  ∧ Ws.messages t = [Ws.Text Sample.open_frame; Ws.Blob "raw"].
Proof.
  apply (open_once_then_relay JSON.parse Sample.client Sample.remote ["chat"]
           (Some 1%positive) (Sample.heap1 []) _ _ eq_refl _ Sample.open_frame
           [Ws.Text Sample.open_frame; Ws.Blob "raw"]
           [("type", JSON.JStr "open"); ("protocol", JSON.JStr "chat");
            ("setCookies", JSON.JArr [])]);
    reflexivity.
Defined.

Lemma first_frame_violation_witness :
  let inputs :=
    [Ws.Event Ws.EvOpen;
     Ws.Event (Ws.EvMessage (Ws.ArrayBuffer "raw"));
     Ws.Event (Ws.EvMessage (Ws.Text Sample.open_frame))] in
  let t := Ws.trace (Ws.run JSON.parse (Sample.connect []).1 (Sample.connect []).2 inputs) in
  Ws.opens t = [] ∧ Ws.messages t = []
  ∧ ∃ e, Ws.Thrown e ∈ t ∧ (e = SyntaxError ∨ ∃ m, e = TypeError m).
Proof.
  apply (first_frame_violation JSON.parse Sample.client Sample.remote ["chat"]
           (Some 1%positive) (Sample.heap1 []) _ _ eq_refl _
           (Ws.ArrayBuffer "raw") [Ws.Text Sample.open_frame]);
    reflexivity.
Defined.

Lemma handshake_order_witness :
  let inputs :=
    [Ws.CallSend (Ws.Text "early"); Ws.Event Ws.EvOpen; Ws.Event Ws.EvOpen;
     Ws.CallSend (Ws.Text "late")] in
  let t := Ws.trace (Ws.run JSON.parse (Sample.connect []).1 (Sample.connect []).2 inputs) in
  Ws.sent t =
    [(Ws.Handshake,
      Ws.Text (Js.dq "{'type':'connect','remote':'https://example.com:8443/x?y=1','protocols':['chat'],'headers':{'Host':'example.com:8443','Upgrade':'websocket','Connection':'Upgrade'},'forwardHeaders':[]}"));
     (Ws.Caller, Ws.Text "late")]
  ∧ (length (Ws.opens t) ≤ 1)%nat.
Proof.
  split; [reflexivity|].
  apply (handshake_order JSON.parse Sample.client Sample.remote ["chat"]
           (Some 1%positive) (Sample.heap1 []) _ _ eq_refl).
Defined.

(** ** The caller's header array *)

Lemma push_lookup (σ : store) (a : loc) (h : RawHeaders) (e : string * string) :
  σ !! a = Some h → Store.push a e σ = <[a := h ++ [e]]> σ.
Proof. intros H. unfold Store.push, Store.read. by rewrite H. Qed.

Lemma connect_some this url protocols (a : loc) (σ : store) (h : RawHeaders) :
  σ !! a = Some h →
  Ws.connect this url protocols (Some a) σ =
  (Ws.mkConn url protocols a,
   Ws.world_of (ClientV3.ws this)
     (<[a := h ++ [("Host", URL.host url); ("Upgrade", "websocket");
                   ("Connection", "Upgrade")]]> σ)
     Ws.initial).
Proof.
  intros H. unfold Ws.connect.
  rewrite (push_lookup σ a h _ H).
  rewrite (push_lookup _ a (h ++ [("Host", URL.host url)]) _ (lookup_insert_eq _ _ _)).
  rewrite (push_lookup _ a ((h ++ [("Host", URL.host url)]) ++ [("Upgrade", "websocket")])
             _ (lookup_insert_eq _ _ _)).
  rewrite !insert_insert_eq, <- !app_assoc. reflexivity.
Qed.

(** C9. [request] and [connect] change the caller's header array in
    place: after [request] it holds one more entry at its end, [Host] with
    the host of the remote; after [connect], three more, [Host], [Upgrade]
    and [Connection]. Nothing else in the store changes. *)
Theorem headers_array_grows
    (JSON_parse : string -> option JSON.json) (md5 : string -> string)
    (fetch : string -> Http.RequestInit -> result Http.Response)
    (joinHeaders : Headers.t -> result Headers.t)
    (splitHeaders : Headers.t -> Headers.t)
    (this : ClientV3.t) (remote url : URL.t) (method : string)
    (body : option Http.bodyinit) (signal : option nat)
    (protocols : list string) (a : loc) (σ : store) (h : RawHeaders) :
  σ !! a = Some h →
  (Http.request JSON_parse md5 fetch joinHeaders splitHeaders this remote
                method body a signal σ).1
    = <[a := h ++ [("Host", URL.host remote)]]> σ
  ∧ Ws.heap (Ws.connect this url protocols (Some a) σ).2
    = <[a := h ++ [("Host", URL.host url); ("Upgrade", "websocket");
                   ("Connection", "Upgrade")]]> σ.
Proof.
  intros H. split.
  - unfold Http.request. simpl. by apply push_lookup.
  - by rewrite (connect_some _ _ _ _ _ _ H).
Qed.

Lemma headers_array_grows_witness :
  (Sample.request Sample.created_object [("accept", "text/html")]).1 !! 1%positive
    = Some [("accept", "text/html"); ("Host", "example.com:8443")]
  ∧ Ws.heap (Sample.connect [("accept", "text/html")]).2 !! 1%positive
    = Some [("accept", "text/html"); ("Host", "example.com:8443");
            ("Upgrade", "websocket"); ("Connection", "Upgrade")].
Proof.
  destruct (headers_array_grows JSON.parse Sample.md5
              (Sample.tunnel Sample.created_object) Codec.joinHeaders
              (Codec.splitHeaders 3072) Sample.client Sample.remote Sample.remote
              "GET" None None ["chat"] 1%positive
              (Sample.heap1 [("accept", "text/html")]) [("accept", "text/html")]
              eq_refl) as [Hr Hc].
  unfold Sample.request, Sample.connect. rewrite Hr, Hc.
  split; apply lookup_insert_eq.
Defined.

(** ** The headers object *)

Lemma Obj_get_map_JStr (n : string) (o : Obj.t string) :
  Obj.get n (List.map (fun e : string * string => (e.1, JSON.JStr e.2)) o)
  = JSON.JStr <$> Obj.get n o.
Proof.
  induction o as [|[k v] o IH]; simpl; [done|].
  by destruct (String.eqb k n).
Qed.

Lemma createBareHeaders_plain (splitHeaders : Headers.t -> Headers.t)
    (remote : URL.t) (l : RawHeaders) :
  Http.createBareHeaders splitHeaders remote l [] [] [] =
  splitHeaders [("x-bare-url", URL.toString remote);
                ("x-bare-headers", JSON.stringify (Http.headers_object l))].
Proof. reflexivity. Qed.

(** C4, amended. The [x-bare-headers] value [request] builds, and the
    [headers] member of the Connect control message, are the JSON text of
    the object [Object.fromEntries] makes of the collection after the
    injections. That object has every name of the collection, each with
    the last value the collection gives it. When the names of the
    collection are pairwise distinct and none is an array index, its
    members are the pairs of the collection, in the same order. *)
Theorem outbound_headers_object
    (JSON_parse : string -> option JSON.json) (md5 : string -> string)
    (joinHeaders : Headers.t -> result Headers.t)
    (splitHeaders : Headers.t -> Headers.t)
    (this : ClientV3.t) (remote url : URL.t) (method : string)
    (body : option Http.bodyinit) (signal : option nat)
    (protocols : list string) (a : loc) (σ : store) (h : RawHeaders) :
  σ !! a = Some h →
  let post := h ++ [("Host", URL.host remote)] in
  let post_ws := h ++ [("Host", URL.host url); ("Upgrade", "websocket");
                       ("Connection", "Upgrade")] in
  let object (l : RawHeaders) : JSON.json :=
    JSON.JObj (List.map (fun e : string * string => (e.1, JSON.JStr e.2))
                        (Obj.fromEntries l)) in
  (∃ k, ∀ fetch,
     (Http.request JSON_parse md5 fetch joinHeaders splitHeaders this remote
                   method body a signal σ).2
     = fetch (URL.toString (ClientV3.http this) +:+ "?cache="
              +:+ md5 (URL.toString remote))
             (Http.mkInit "omit" method signal "half" body
                (Some (splitHeaders
                         [("x-bare-url", URL.toString remote);
                          ("x-bare-headers", JSON.stringify (object post))])))
       ≫= k)
  ∧ (let '(c, w) := Ws.connect this url protocols (Some a) σ in
     Ws.sent (Ws.trace (Ws.run JSON_parse c w [Ws.Event Ws.EvOpen]))
     = [(Ws.Handshake,
         Ws.Text (JSON.stringify
                    (JSON.JObj
                       [("type", JSON.JStr "connect");
                        ("remote", JSON.JStr (URL.toString url));
                        ("protocols", JSON.JArr (List.map JSON.JStr protocols));
                        ("headers", object post_ws);
                        ("forwardHeaders", JSON.JArr [])])))])
  ∧ (∀ l : RawHeaders,
       (∀ n, Obj.get n (Obj.fromEntries l) = Obj.last_value n l)
       ∧ (NoDup (List.map fst l) →
          Forall (fun e => Obj.array_index e.1 = None) l →
          Obj.fromEntries l = l)).
Proof.
  intros H. cbv zeta. split_and!.
  - eexists. intros fetch. unfold Http.request. simpl.
    rewrite (push_lookup σ a h _ H). unfold Store.read.
    rewrite lookup_insert_eq. simpl. rewrite createBareHeaders_plain.
    destruct body; reflexivity.
  - rewrite (connect_some _ _ _ _ _ _ H). rewrite run_sim. simpl.
    unfold Ws.hello, Store.read. simpl. by rewrite lookup_insert_eq.
  - intros l. split.
    + intros n. apply Obj_get_fromEntries.
    + apply Obj_fromEntries_id.
Qed.

Lemma outbound_headers_object_witness :
  (Sample.request_echo [("accept", "text/html"); ("cookie", "k=v")]).2
    = Throw (FetchError
               (Js.dq "{'accept':'text/html','cookie':'k=v','Host':'example.com:8443'}"))
  ∧ Obj.fromEntries [("accept", "text/html"); ("cookie", "k=v");
                     ("Host", "example.com:8443")]
    = [("accept", "text/html"); ("cookie", "k=v"); ("Host", "example.com:8443")].
Proof.
  destruct (outbound_headers_object JSON.parse Sample.md5 Codec.joinHeaders
              (Codec.splitHeaders 3072) Sample.client Sample.remote Sample.remote
              "GET" None None ["chat"] 1%positive
              (Sample.heap1 [("accept", "text/html"); ("cookie", "k=v")])
              [("accept", "text/html"); ("cookie", "k=v")] eq_refl)
    as ([k Hk] & _ & Hobj).
  split.
  - unfold Sample.request_echo. rewrite Hk. reflexivity.
  - apply Hobj.
    + compute_done.
    + repeat constructor.
Defined.

(** C4, as the claim states it, fails on a collection with a repeated
    name: the object keeps one member per name, so a pair is lost. *)
Lemma outbound_headers_object_counterexample :
  let h := [("accept", "text/html"); ("accept", "image/png")] in
  (Sample.request_echo h).2
    = Throw (FetchError (Js.dq "{'accept':'image/png','Host':'example.com:8443'}"))
  ∧ Ws.sent (Ws.trace (Ws.run JSON.parse (Sample.connect h).1 (Sample.connect h).2
                              [Ws.Event Ws.EvOpen]))
    = [(Ws.Handshake,
        Ws.Text (Js.dq "{'type':'connect','remote':'https://example.com:8443/x?y=1','protocols':['chat'],'headers':{'accept':'image/png','Host':'example.com:8443','Upgrade':'websocket','Connection':'Upgrade'},'forwardHeaders':[]}"))]
  ∧ ("accept", "text/html") ∈ h ++ [("Host", URL.host Sample.remote)]
  ∧ ("accept", "text/html") ∉ Obj.fromEntries (h ++ [("Host", URL.host Sample.remote)]).
Proof.
  cbv zeta. split_and!; [reflexivity|reflexivity|compute_done|compute_done].
Qed.

(** ** The header codec: join after split *)

Lemma string_app_nil_r (s : string) : s +:+ EmptyString = s.
Proof. induction s as [|c s IH]; simpl; [done|by rewrite IH]. Qed.

Lemma take_drop (n : nat) (s : string) : Js.take n s +:+ Js.drop n s = s.
Proof.
  revert s. induction n as [|n IH]; intros [|c s]; simpl; try done.
  by rewrite IH.
Qed.

Lemma canonical_decimal_decimal (n : N) : Js.canonical_decimal (Js.decimal n) = Some n.
Proof.
  unfold Js.canonical_decimal, Js.decimal.
  rewrite NilEmpty.usu, DecimalN.Unsigned.of_to. by rewrite String.eqb_refl.
Qed.

Lemma rsplit_dash_numeral (u : Decimal.uint) :
  Codec.rsplit_dash (NilEmpty.string_of_uint u) = None.
Proof. induction u; simpl; rewrite ?IHu; reflexivity. Qed.

Lemma rsplit_dash_app (n d : string) :
  Codec.rsplit_dash d = None →
  Codec.rsplit_dash (n +:+ "-" +:+ d) = Some (n, d).
Proof.
  intros Hd. change ("-" +:+ d) with (String "-" d).
  induction n as [|c n IH]; simpl.
  - by rewrite Hd.
  - by rewrite IH.
Qed.

Lemma suffix_of_chunk_name (n : string) (k : nat) :
  Codec.suffix_of (Codec.chunk_name n (S k)) = Some (n, S k).
Proof.
  unfold Codec.suffix_of, Codec.chunk_name.
  rewrite rsplit_dash_app by apply rsplit_dash_numeral.
  rewrite canonical_decimal_decimal.
  assert ((0 <? N.of_nat (S k))%N = true) as -> by (apply N.ltb_lt; lia).
  by rewrite Nat2N.id.
Qed.

#[local] Arguments Codec.chunk_name : simpl never.

Section Roundtrip.

Variable threshold : nat.

Local Abbreviation split_one := (Codec.split_one threshold).

Lemma concat_pieces (fuel : nat) (v : string) :
  Js.concat (Codec.pieces threshold fuel v) = v.
Proof.
  revert v. induction fuel as [|f IH]; intros v; simpl.
  - apply string_app_nil_r.
  - destruct (String.length v <=? threshold)%nat; simpl.
    + apply string_app_nil_r.
    + rewrite IH. apply take_drop.
Qed.

Lemma length_take (n : nat) (s : string) :
  (n ≤ String.length s)%nat → String.length (Js.take n s) = n.
Proof.
  revert s. induction n as [|n IH]; intros [|c s]; simpl; try done; try lia.
  intros H. rewrite IH; lia.
Qed.

Lemma length_drop (n : nat) (s : string) :
  String.length (Js.drop n s) = (String.length s - n)%nat.
Proof.
  revert s. induction n as [|n IH]; intros [|c s]; simpl; done.
Qed.

(** With a threshold that is not zero, no piece is longer than the
    threshold. *)
Lemma pieces_bounded (fuel : nat) (v : string) :
  (0 < threshold)%nat →
  (String.length v ≤ fuel * threshold + threshold)%nat →
  Forall (fun c => (String.length c ≤ threshold)%nat)
         (Codec.pieces threshold fuel v).
Proof.
  intros Hpos. revert v. induction fuel as [|f IH]; intros v Hlen; simpl.
  - apply Forall_singleton. lia.
  - destruct (Nat.leb_spec (String.length v) threshold) as [Hle|Hgt].
    + by apply Forall_singleton.
    + apply Forall_cons. split.
      * rewrite length_take; lia.
      * apply IH. rewrite length_drop. simpl in Hlen. lia.
Qed.

Lemma partition_bounded (v : string) :
  (0 < threshold)%nat →
  Forall (fun c => (String.length c ≤ threshold)%nat)
         (Codec.partition threshold v).
Proof. intros Hpos. apply pieces_bounded; [done|]. nia. Qed.

(** What [split_one] emits: the name itself with the first piece, then
    the numbered names with the other pieces; the pieces make the value. *)
Lemma split_one_shape (e : string * string) :
  ∃ c0 cs, split_one e = (e.1, c0) :: Codec.number e.1 1 cs
           ∧ Js.concat (c0 :: cs) = e.2.
Proof.
  unfold Codec.split_one. destruct e as [n v]. simpl.
  destruct (String.length v <=? threshold)%nat.
  - exists v, []. split; [done|]. apply string_app_nil_r.
  - unfold Codec.partition.
    pose proof (concat_pieces (String.length v) v) as Hc.
    destruct (Codec.pieces threshold (String.length v) v) as [|c0 cs] eqn:Hp.
    + by destruct (String.length v); simpl in Hp;
        [|destruct (String.length v <=? threshold)%nat].
    + by exists c0, cs.
Qed.

(** The physical entries [p] among which names are located. An entry of
    the logical collection is good for [p] when its name carries no
    numeric suffix and is the name of an entry of [p]. *)
Section Located.

Variable p : Headers.t.

Local Abbreviation good :=
  (fun e : string * string =>
     Codec.suffix_of e.1 = None ∧ Obj.has e.1 p = true).

Local Abbreviation grouped base :=
  (omap (fun e : string * string =>
           let '(b, k) := Codec.locate p e.1 in
           if String.eqb b base then Some (k, e.2) else None)).

Lemma locate_plain (name : string) :
  Codec.suffix_of name = None → Codec.locate p name = (name, O).
Proof. intros H. unfold Codec.locate. by rewrite H. Qed.

Lemma locate_chunk (n : string) (k : nat) :
  Obj.has n p = true → Codec.locate p (Codec.chunk_name n (S k)) = (n, S k).
Proof.
  intros H. unfold Codec.locate. by rewrite suffix_of_chunk_name, H.
Qed.

Lemma is_base_plain (name : string) :
  Codec.suffix_of name = None → Codec.is_base p name = true.
Proof.
  intros H. unfold Codec.is_base. rewrite (locate_plain _ H).
  by rewrite String.eqb_refl.
Qed.

Lemma is_base_chunk (n : string) (k : nat) :
  Obj.has n p = true → Codec.is_base p (Codec.chunk_name n (S k)) = false.
Proof.
  intros H. unfold Codec.is_base. rewrite (locate_chunk _ _ H). simpl.
  apply andb_false_r.
Qed.

(** The numbered entries of one logical header. *)
Lemma number_located (n : string) (k : nat) (cs : list string) :
  Codec.suffix_of n = None → Obj.has n p = true →
  forallb (fun x : string * string => Codec.is_base p (Codec.locate p x.1).1)
          (Codec.number n (S k) cs) = true
  ∧ List.filter (fun x : string * string => Codec.is_base p x.1)
                (Codec.number n (S k) cs) = []
  ∧ ∀ base, grouped base (Codec.number n (S k) cs) =
            if String.eqb n base then zip (seq (S k) (length cs)) cs else [].
Proof.
  intros Hn Hp. revert k. induction cs as [|c cs IH]; intros k; simpl.
  - split_and!; [done..|]. intros base. by destruct (String.eqb n base).
  - destruct (IH (S k)) as (IH1 & IH2 & IH3).
    rewrite (locate_chunk n k Hp). simpl.
    rewrite (is_base_plain n Hn), (is_base_chunk n k Hp), IH1, IH2. simpl.
    split_and!; [done..|]. intros base. specialize (IH3 base).
    destruct (String.eqb n base); simpl; [f_equal|]; exact IH3.
Qed.

(** The entries of one logical header. *)
Lemma split_one_located (e : string * string) :
  good e →
  ∃ c0 cs,
    Js.concat (c0 :: cs) = e.2
    ∧ forallb (fun x : string * string => Codec.is_base p (Codec.locate p x.1).1)
              (split_one e) = true
    ∧ List.filter (fun x : string * string => Codec.is_base p x.1) (split_one e)
      = [(e.1, c0)]
    ∧ ∀ base, grouped base (split_one e) =
              if String.eqb e.1 base then zip (seq 0 (S (length cs))) (c0 :: cs)
              else [].
Proof.
  intros [Hn Hp]. destruct (split_one_shape e) as (c0 & cs & -> & Hc).
  exists c0, cs. split; [done|].
  destruct (number_located e.1 0 cs Hn Hp) as (H1 & H2 & H3). simpl.
  rewrite (locate_plain _ Hn), (is_base_plain _ Hn), H1, H2. simpl.
  rewrite ?(is_base_plain _ Hn).
  split_and!; [done..|]. intros base. specialize (H3 base).
  destruct (String.eqb e.1 base); simpl; [f_equal|]; exact H3.
Qed.

Lemma split_located (l : Headers.t) :
  Forall good l →
  forallb (fun x : string * string => Codec.is_base p (Codec.locate p x.1).1)
          (flat_map split_one l) = true
  ∧ List.map fst (List.filter (fun x : string * string => Codec.is_base p x.1)
                              (flat_map split_one l)) = List.map fst l.
Proof.
  induction 1 as [|e l He _ [IH1 IH2]]; simpl; [done|].
  destruct (split_one_located e He) as (c0 & cs & _ & H1 & H2 & _).
  rewrite forallb_app, H1, IH1, List.filter_app, H2. simpl. by rewrite IH2.
Qed.

Lemma grouped_absent (base : string) (l : Headers.t) :
  Forall good l → base ∉ List.map fst l →
  grouped base (flat_map split_one l) = [].
Proof.
  induction 1 as [|e l He _ IH]; simpl; [done|]. intros Hbase.
  apply not_elem_of_cons in Hbase as [Hne Hbase].
  destruct (split_one_located e He) as (c0 & cs & _ & _ & _ & Hg).
  rewrite omap_app, (Hg base), (IH Hbase).
  apply not_eq_sym, String.eqb_neq in Hne. by rewrite Hne.
Qed.

Lemma grouped_present (e : string * string) (l : Headers.t) :
  NoDup (List.map fst l) → Forall good l → e ∈ l →
  ∃ c0 cs, Js.concat (c0 :: cs) = e.2
           ∧ grouped e.1 (flat_map split_one l)
             = zip (seq 0 (S (length cs))) (c0 :: cs).
Proof.
  intros Hnd Hgood. revert Hnd.
  induction Hgood as [|e' l He' Hgood IH]; simpl; intros Hnd Hin.
  - by apply elem_of_nil in Hin.
  - apply NoDup_cons in Hnd as [Hfresh Hnd].
    destruct (split_one_located e' He') as (c0 & cs & Hc & _ & _ & Hg).
    rewrite omap_app, (Hg e.1).
    apply elem_of_cons in Hin as [->|Hin].
    + rewrite String.eqb_refl, (grouped_absent _ _ Hgood Hfresh), app_nil_r.
      by exists c0, cs.
    + assert (e'.1 ≠ e.1) as Hne.
      { intros Heq. apply Hfresh. rewrite Heq. by apply list_elem_of_fmap_2. }
      apply String.eqb_neq in Hne as ->. simpl. by apply IH.
Qed.

End Located.

Lemma enumerated_fst (k : nat) (cs : list string) :
  List.map fst (zip (seq k (length cs)) cs) = seq k (length cs).
Proof. revert k. induction cs as [|c cs IH]; intros k; simpl; [done|by rewrite IH]. Qed.

Lemma enumerated_snd (k : nat) (cs : list string) :
  List.map snd (zip (seq k (length cs)) cs) = cs.
Proof. revert k. induction cs as [|c cs IH]; intros k; simpl; [done|by rewrite IH]. Qed.

Lemma enumerated_length (k : nat) (cs : list string) :
  length (zip (seq k (length cs)) cs) = length cs.
Proof. revert k. induction cs as [|c cs IH]; intros k; simpl; [done|by rewrite IH]. Qed.

(** Entries numbered in ascending order are sorted already. *)
Lemma sort_enumerated (k : nat) (cs : list string) :
  Codec.sort_by_suffix (zip (seq k (length cs)) cs) = zip (seq k (length cs)) cs.
Proof.
  revert k. induction cs as [|c cs IH]; intros k; simpl; [done|].
  rewrite IH. destruct cs as [|c' cs]; simpl; [done|].
  by assert ((k <=? S k)%nat = true) as -> by (apply Nat.leb_le; lia).
Qed.

Lemma group_value_enumerated (cs : list string) :
  Codec.group_value (zip (seq 0 (length cs)) cs) = Ok (Js.concat cs).
Proof.
  unfold Codec.group_value, Codec.eqb_nats.
  rewrite sort_enumerated, enumerated_fst, enumerated_snd, enumerated_length.
  by rewrite bool_decide_eq_true_2.
Qed.

Lemma join_groups_all (p l : Headers.t) :
  (∀ e, e ∈ l → Codec.group_value (Codec.group p e.1) = Ok e.2) →
  Codec.join_groups p (List.map fst l) = Ok l.
Proof.
  induction l as [|[n v] l IH]; intros H; simpl; [done|].
  assert (Hh : Codec.group_value (Codec.group p n) = Ok v).
  { apply (H (n, v)). by left. }
  rewrite Hh. simpl.
  rewrite IH; [done|]. intros e He. apply H. by right.
Qed.

Lemma Obj_has_elem (n : string) (o : Headers.t) :
  n ∈ List.map fst o → Obj.has n o = true.
Proof.
  unfold Obj.has. induction o as [|[k v] o IH]; simpl; intros H.
  - by apply elem_of_nil in H.
  - destruct (String.eqb_spec k n) as [->|Hne]; [done|].
    apply elem_of_cons in H as [->|H]; [done|by apply IH].
Qed.

Lemma split_has_name (h : Headers.t) (e : string * string) :
  e ∈ h → Obj.has e.1 (Codec.splitHeaders threshold h) = true.
Proof.
  intros He. apply Obj_has_elem. unfold Codec.splitHeaders.
  destruct (split_one_shape e) as (c0 & cs & Hs & _).
  apply (list_elem_of_fmap_2 fst _ (e.1, c0)).
  apply list_elem_of_In, in_flat_map. exists e. split.
  - by apply list_elem_of_In.
  - rewrite Hs. by left.
Qed.

(** C2, amended. For a header collection whose names are pairwise
    distinct and carry no numeric suffix [-<n>], and for values of any
    length, joining the split of the collection gives the collection
    back: same names, same order, same values. *)
Theorem join_split (h : Headers.t) :
  NoDup (List.map fst h) →
  Forall (fun e : string * string => Codec.suffix_of e.1 = None) h →
  Codec.joinHeaders (Codec.splitHeaders threshold h) = Ok h.
Proof.
  intros Hnd Hplain.
  set (p := Codec.splitHeaders threshold h).
  assert (Hgood : Forall (fun e : string * string =>
                            Codec.suffix_of e.1 = None ∧ Obj.has e.1 p = true) h).
  { apply Forall_forall. intros e He. split.
    - by apply (proj1 (Forall_forall _ _) Hplain).
    - by apply split_has_name. }
  destruct (split_located p h Hgood) as [Hall Hbases].
  unfold Codec.joinHeaders. fold p. unfold Codec.splitHeaders in p.
  subst p. rewrite Hall, Hbases. apply join_groups_all. intros e He.
  destruct (grouped_present _ e h Hnd Hgood He) as (c0 & cs & Hc & Hg).
  unfold Codec.group. rewrite Hg.
  change (S (length cs)) with (length (c0 :: cs)).
  by rewrite (group_value_enumerated (c0 :: cs)), Hc.
Qed.

End Roundtrip.

Lemma join_split_witness :
  let h := [("cookie", "0123456789abcdef0123"); ("accept", "text/html")] in
  Codec.splitHeaders 8 h =
    [("cookie", "01234567"); ("cookie-1", "89abcdef"); ("cookie-2", "0123");
     ("accept", "text/htm"); ("accept-1", "l")]
  ∧ Codec.joinHeaders (Codec.splitHeaders 8 h) = Ok h.
Proof.
  split; [reflexivity|].
  apply (join_split 8 [("cookie", "0123456789abcdef0123"); ("accept", "text/html")]).
  - compute_done.
  - repeat constructor.
Defined.

(** C2, as the claim states it, fails on a collection in which one name
    is another name followed by a numeric suffix: the second header is
    taken for a chunk of the first. It fails as well on a collection with
    a repeated name, whose entries fall into one group. *)
Lemma join_split_counterexample :
  let h := [("x-token", "abc"); ("x-token-1", "def")] in
  let h' := [("accept", "text/html"); ("accept", "image/png")] in
  Codec.splitHeaders 3072 h = h
  ∧ Codec.joinHeaders (Codec.splitHeaders 3072 h) = Ok [("x-token", "abcdef")]
  ∧ Codec.joinHeaders (Codec.splitHeaders 3072 h) ≠ Ok h
  ∧ Codec.joinHeaders (Codec.splitHeaders 3072 h') ≠ Ok h'.
Proof.
  cbv zeta. split_and!; [reflexivity|reflexivity| |]; vm_compute; discriminate.
Qed.

(** * Further properties *)

(** ** What the caller of [connect] is told *)

Lemma calls_app t1 t2 : Ws.calls (t1 ++ t2) = Ws.calls t1 ++ Ws.calls t2.
Proof. apply List.filter_app. Qed.

Section Relay.

Variable JSON_parse : string -> option JSON.json.
Variable hello : Ws.data.

Local Abbreviation step := (Ws.phase_step JSON_parse hello).
Local Abbreviation run := (Ws.phase_run JSON_parse hello).

Lemma phase_run_app (s : Ws.phase * list Ws.action) (l1 l2 : list Ws.input) :
  run s (l1 ++ l2) = run (run s l1) l2.
Proof. apply fold_left_app. Qed.

(** The trace of some inputs followed by one input and more inputs. *)
Lemma phase_run_split (p : Ws.phase) (pre : list Ws.input) (i : Ws.input)
    (post : list Ws.input) :
  let p1 := (run (p, []) pre).1 in
  (run (p, []) (pre ++ i :: post)).2
  = (run (p, []) pre).2 ++ (step p1 i).2 ++ (run ((step p1 i).1, []) post).2.
Proof.
  cbv zeta. rewrite phase_run_app.
  destruct (run (p, []) pre) as [p1 t1].
  rewrite (phase_run_trace JSON_parse hello p1 t1). cbn [fst snd].
  by rewrite phase_run_cons.
Qed.

(** Once dead, no callback is called. *)
Lemma dead_calls (p : Ws.phase) (inputs : list Ws.input) :
  Ws.ph_stage p = Ws.Dead → Ws.calls (run (p, []) inputs).2 = [].
Proof.
  revert p. induction inputs as [|i inputs IH]; intros [st op rd] Hst;
    simpl in Hst; subst st; [done|].
  rewrite phase_run_cons, calls_app.
  destruct i as [[|d|code reason|]|d|code reason]; simpl;
    try (destruct op, rd; simpl; by apply IH); by apply IH.
Qed.

(** Once established, the callbacks are those of a transparent relay. *)
Lemma established_calls (p : Ws.phase) (inputs : list Ws.input) :
  Ws.ph_stage p = Ws.Established →
  Ws.calls (run (p, []) inputs).2 = Ws.relayed inputs.
Proof.
  revert p. induction inputs as [|i inputs IH]; intros [st op rd] Hst;
    simpl in Hst; subst st; [done|].
  rewrite phase_run_cons, calls_app.
  destruct i as [[|d|code reason|]|d|code reason]; simpl;
    try (destruct op, rd; simpl; by apply IH).
  - f_equal. by apply IH.
  - f_equal. by apply IH.
Qed.

(** While the first frame is awaited, inputs that are neither frames nor
    close events change nothing for the caller. *)
Lemma awaiting_quiet (p : Ws.phase) (pre : list Ws.input) :
  Ws.ph_stage p = Ws.Awaiting →
  Ws.relayed pre = [] →
  Ws.ph_stage (run (p, []) pre).1 = Ws.Awaiting
  ∧ Ws.calls (run (p, []) pre).2 = [].
Proof.
  revert p. induction pre as [|i pre IH]; intros p Hst Hq; [done|].
  assert (Hi : match i with
               | Ws.Event (Ws.EvMessage _) | Ws.Event (Ws.EvClose _ _) => False
               | _ => True
               end ∧ Ws.relayed pre = []).
  { by destruct i as [[]| |]. }
  destruct Hi as [Hi Hq'].
  destruct (awaiting_other JSON_parse hello p i Hst Hi) as (Hst' & _ & _).
  assert (Hc : Ws.calls (step p i).2 = []).
  { destruct p as [st op rd]. simpl in Hst. subst st.
    destruct i as [[|d|code reason|]|d|code reason]; try done;
      by destruct op, rd. }
  destruct (IH _ Hst' Hq') as [IH1 IH2].
  simpl. rewrite observe_eq. simpl.
  rewrite (phase_run_trace JSON_parse hello). simpl.
  by rewrite calls_app, Hc, IH2.
Qed.

(** [onerror] is never called. *)
Lemma no_onerror (inputs : list Ws.input) :
  Forall (fun a => match a with Ws.Onerror _ => False | _ => True end)
         (run Ws.initial inputs).2.
Proof.
  apply (phase_run_invariant JSON_parse hello
           (fun s => Forall (fun a => match a with Ws.Onerror _ => False | _ => True end) s.2));
    [done|].
  intros [[st op rd] t] i H. rewrite observe_eq. simpl in H |- *.
  apply Forall_app. split; [done|].
  destruct i as [[|d|code reason|]|d|code reason]; simpl.
  - destruct op, rd; repeat constructor.
  - destruct st; [destruct (Ws.reply _ _)|..]; repeat constructor.
  - destruct st; repeat constructor.
  - constructor.
  - destruct rd; repeat constructor.
  - constructor.
Qed.

End Relay.

Section Sending.

Variable JSON_parse : string -> option JSON.json.
Variable hello : Ws.data.

Local Abbreviation step := (Ws.phase_step JSON_parse hello).
Local Abbreviation run := (Ws.phase_run JSON_parse hello).

(** While the socket is connecting and the [open] handler is pending,
    nothing goes out. *)
Lemma connecting_sent (p : Ws.phase) (pre : list Ws.input) :
  Ws.ph_ready p = Ws.CONNECTING → Ws.ph_open_pending p = true →
  forallb (fun i => negb (Ws.closing i) && negb (Ws.is_open_event i)) pre = true →
  Ws.ph_ready (run (p, []) pre).1 = Ws.CONNECTING
  ∧ Ws.ph_open_pending (run (p, []) pre).1 = true
  ∧ Ws.sent (run (p, []) pre).2 = [].
Proof.
  revert p. induction pre as [|i pre IH]; intros [st op rd] Hrd Hop Hpre;
    simpl in Hrd, Hop; subst; [done|].
  simpl in Hpre. apply andb_true_iff in Hpre as [Hi Hpre].
  simpl. rewrite observe_eq. rewrite (phase_run_trace JSON_parse hello).
  cbn [fst snd]. rewrite sent_app.
  destruct i as [[|d|code reason|]|d|code reason]; try done; simpl.
  - destruct st; [destruct (Ws.reply _ _)|..]; simpl; by apply IH.
  - by apply IH.
  - by apply IH.
Qed.

(** While the socket is open and the [open] handler has run, what the
    caller sends goes out as it is. *)
Lemma open_sent (p : Ws.phase) (post : list Ws.input) :
  Ws.ph_ready p = Ws.OPEN → Ws.ph_open_pending p = false →
  forallb (fun i => negb (Ws.closing i)) post = true →
  Ws.sent (run (p, []) post).2 = List.map (pair Ws.Caller) (Ws.sends post).
Proof.
  revert p. induction post as [|i post IH]; intros [st op rd] Hrd Hop Hpost;
    simpl in Hrd, Hop; subst; [done|].
  simpl in Hpost. apply andb_true_iff in Hpost as [Hi Hpost].
  rewrite phase_run_cons, sent_app.
  destruct i as [[|d|code reason|]|d|code reason]; try done; simpl.
  - by apply IH.
  - destruct st; [destruct (Ws.reply _ _)|..]; simpl; by apply IH.
  - by apply IH.
  - f_equal. by apply IH.
Qed.

End Sending.

Section ConnectCalls.

Variable JSON_parse : string -> option JSON.json.
Variables (this : ClientV3.t) (url : URL.t) (protocols : list string)
          (requestHeaders : option loc) (σ : store).
Variables (c : Ws.connection) (w : Ws.world).

Hypothesis connected : Ws.connect this url protocols requestHeaders σ = (c, w).

Local Abbreviation trace_of inputs := (Ws.trace (Ws.run JSON_parse c w inputs)).

Lemma connect_trace_split pre i post :
  Ws.relayed pre = [] →
  ∃ p, Ws.ph_stage p = Ws.Awaiting
       ∧ Ws.calls (trace_of (pre ++ i :: post))
         = Ws.calls (Ws.phase_step JSON_parse (Ws.hello c (Ws.heap w)) p i).2
           ++ Ws.calls (Ws.phase_run JSON_parse (Ws.hello c (Ws.heap w))
                          ((Ws.phase_step JSON_parse (Ws.hello c (Ws.heap w)) p i).1, [])
                          post).2.
Proof.
  intros Hq.
  rewrite (connect_trace JSON_parse this url protocols requestHeaders σ c w connected).
  destruct (awaiting_quiet JSON_parse (Ws.hello c (Ws.heap w))
              (Ws.mkPhase Ws.Awaiting true Ws.CONNECTING) pre eq_refl Hq)
    as [Hst Hcalls].
  eexists. split; [exact Hst|].
  unfold Ws.initial. rewrite phase_run_split. cbv zeta.
  by rewrite !calls_app, Hcalls.
Qed.

(** X1. [connect] never calls [onerror], whatever the socket and the caller
    do. *)
Theorem onerror_never_called (inputs : list Ws.input) :
  ∀ error, Ws.Onerror error ∉ trace_of inputs.
Proof.
  intros error Hin.
  rewrite (connect_trace JSON_parse this url protocols requestHeaders σ c w connected)
    in Hin.
  pose proof (no_onerror JSON_parse (Ws.hello c (Ws.heap w)) inputs) as H.
  by apply (proj1 (Forall_forall _ _) H) in Hin.
Qed.

(** X2. A close event that comes before any frame is handed to [onclose],
    and that is the only callback ever called: frames and close events
    after it reach nobody. *)
Theorem close_before_reply (pre post : list Ws.input) (code : Z) (reason : string) :
  Ws.relayed pre = [] →
  Ws.calls (trace_of (pre ++ Ws.Event (Ws.EvClose code reason) :: post))
  = [Ws.Onclose code reason].
Proof.
  intros Hq.
  destruct (connect_trace_split pre (Ws.Event (Ws.EvClose code reason)) post Hq)
    as ([st op rd] & Hst & ->). simpl in Hst. subst st. simpl.
  by rewrite dead_calls.
Qed.

(** X3. After a first frame that is not an Open control message no callback
    is ever called: not [onopen], not [onmessage], and not [onclose]
    when the socket closes. *)
Theorem violation_ends_silently (pre post : list Ws.input) (d : Ws.data) :
  Ws.relayed pre = [] →
  Ws.open_frame JSON_parse d = false →
  Ws.calls (trace_of (pre ++ Ws.Event (Ws.EvMessage d) :: post)) = [].
Proof.
  intros Hq Hbad.
  destruct (connect_trace_split pre (Ws.Event (Ws.EvMessage d)) post Hq)
    as ([st op rd] & Hst & ->). simpl in Hst. subst st. simpl.
  pose proof (reply_open_frame JSON_parse d) as Hr.
  destruct (Ws.reply JSON_parse d) as [pr|e]; [congruence|]. simpl.
  by rewrite dead_calls.
Qed.

(** X4. After a first frame that is an Open control message, the callbacks
    are [onopen] and then those of a transparent relay: [onmessage] for
    every frame and [onclose] for every close event, in the order of the
    events. *)
Theorem established_relay (pre post : list Ws.input) (frame : string)
    (o : Obj.t JSON.json) :
  Ws.relayed pre = [] →
  JSON_parse frame = Some (JSON.JObj o) →
  Obj.get "type" o = Some (JSON.JStr "open") →
  Ws.calls (trace_of (pre ++ Ws.Event (Ws.EvMessage (Ws.Text frame)) :: post))
  = Ws.Onopen (Obj.get "protocol" o) EmptyString :: Ws.relayed post.
Proof.
  intros Hq Hparse Hty.
  destruct (connect_trace_split pre (Ws.Event (Ws.EvMessage (Ws.Text frame))) post Hq)
    as ([st op rd] & Hst & ->). simpl in Hst. subst st.
  unfold Ws.phase_step. cbn [Ws.ph_stage].
  rewrite (reply_accepts JSON_parse _ _ Hparse Hty). simpl.
  by rewrite established_calls.
Qed.

(** X5. As long as nobody closes the socket, the payloads on the wire are the
    Connect control message followed by everything the caller sent since
    the socket opened, as it is and in order, whether the reply to the
    handshake has come or not; what the caller sent before that went
    nowhere. *)
Theorem caller_sends_after_open (pre post : list Ws.input) :
  forallb (fun i => negb (Ws.closing i) && negb (Ws.is_open_event i)) pre = true →
  forallb (fun i => negb (Ws.closing i)) post = true →
  Ws.sent (trace_of (pre ++ Ws.Event Ws.EvOpen :: post))
  = (Ws.Handshake, Ws.hello c (Ws.heap w))
    :: List.map (pair Ws.Caller) (Ws.sends post).
Proof.
  intros Hpre Hpost.
  rewrite (connect_trace JSON_parse this url protocols requestHeaders σ c w connected).
  unfold Ws.initial. rewrite phase_run_split. cbv zeta.
  destruct (connecting_sent JSON_parse (Ws.hello c (Ws.heap w))
              (Ws.mkPhase Ws.Awaiting true Ws.CONNECTING) pre eq_refl eq_refl Hpre)
    as (Hrd & Hop & Hs).
  rewrite !sent_app, Hs.
  destruct (Ws.phase_run _ _ _ pre).1 as [st op rd]. simpl in Hrd, Hop. subst.
  simpl. f_equal. by apply open_sent.
Qed.

End ConnectCalls.

Lemma onerror_never_called_witness :
  Ws.Onerror "failed" ∉
    Ws.trace (Ws.run JSON.parse (Sample.connect []).1 (Sample.connect []).2
                     [Ws.Event Ws.EvError; Ws.Event (Ws.EvClose 1006 EmptyString)]).
Proof.
  apply (onerror_never_called JSON.parse Sample.client Sample.remote ["chat"]
           (Some 1%positive) (Sample.heap1 []) _ _ eq_refl).
Defined.

Lemma close_before_reply_witness :
  Ws.calls
    (Ws.trace (Ws.run JSON.parse (Sample.connect []).1 (Sample.connect []).2
                      ([Ws.Event Ws.EvOpen; Ws.CallSend (Ws.Text "hi")]
                       ++ Ws.Event (Ws.EvClose 1006 "gone")
                          :: [Ws.Event (Ws.EvMessage (Ws.Text Sample.open_frame));
                              Ws.Event (Ws.EvClose 1000 "again")])))
  = [Ws.Onclose 1006 "gone"].
Proof.
  apply (close_before_reply JSON.parse Sample.client Sample.remote ["chat"]
           (Some 1%positive) (Sample.heap1 []) _ _ eq_refl).
  reflexivity.
Defined.

Lemma violation_ends_silently_witness :
  Ws.calls
    (Ws.trace (Ws.run JSON.parse (Sample.connect []).1 (Sample.connect []).2
                      ([Ws.Event Ws.EvOpen]
                       ++ Ws.Event (Ws.EvMessage (Ws.Text (Js.dq "{'type':'error'}")))
                          :: [Ws.Event (Ws.EvMessage (Ws.Text Sample.open_frame));
                              Ws.Event (Ws.EvClose 1000 "bye")])))
  = [].
Proof.
  apply (violation_ends_silently JSON.parse Sample.client Sample.remote ["chat"]
           (Some 1%positive) (Sample.heap1 []) _ _ eq_refl); reflexivity.
Defined.

Lemma established_relay_witness :
  Ws.calls
    (Ws.trace (Ws.run JSON.parse (Sample.connect []).1 (Sample.connect []).2
                      ([Ws.Event Ws.EvOpen]
                       ++ Ws.Event (Ws.EvMessage (Ws.Text Sample.open_frame))
                          :: [Ws.Event (Ws.EvMessage (Ws.Blob "raw"));
                              Ws.CallSend (Ws.Text "hi");
                              Ws.Event (Ws.EvClose 1000 "bye")])))
  = [Ws.Onopen (Some (JSON.JStr "chat")) EmptyString; Ws.Onmessage (Ws.Blob "raw");
     Ws.Onclose 1000 "bye"].
Proof.
  apply (established_relay JSON.parse Sample.client Sample.remote ["chat"]
           (Some 1%positive) (Sample.heap1 []) _ _ eq_refl
           [Ws.Event Ws.EvOpen]
           [Ws.Event (Ws.EvMessage (Ws.Blob "raw")); Ws.CallSend (Ws.Text "hi");
            Ws.Event (Ws.EvClose 1000 "bye")]
           Sample.open_frame
           [("type", JSON.JStr "open"); ("protocol", JSON.JStr "chat");
            ("setCookies", JSON.JArr [])]); reflexivity.
Defined.

Lemma caller_sends_after_open_witness :
  Ws.sent
    (Ws.trace (Ws.run JSON.parse (Sample.connect []).1 (Sample.connect []).2
                      ([Ws.CallSend (Ws.Text "early")]
                       ++ Ws.Event Ws.EvOpen
                          :: [Ws.CallSend (Ws.Text "before the reply");
                              Ws.Event (Ws.EvMessage (Ws.Text Sample.open_frame));
                              Ws.CallSend (Ws.Blob "after")])))
  = [(Ws.Handshake, Ws.hello (Sample.connect []).1 (Ws.heap (Sample.connect []).2));
     (Ws.Caller, Ws.Text "before the reply"); (Ws.Caller, Ws.Blob "after")].
Proof.
  apply (caller_sends_after_open JSON.parse Sample.client Sample.remote ["chat"]
           (Some 1%positive) (Sample.heap1 []) _ _ eq_refl
           [Ws.CallSend (Ws.Text "early")]
           [Ws.CallSend (Ws.Text "before the reply");
            Ws.Event (Ws.EvMessage (Ws.Text Sample.open_frame));
            Ws.CallSend (Ws.Blob "after")]); reflexivity.
Defined.

(** ** [connect] and the store *)

(** X6. When the caller leaves [requestHeaders] out, [connect] works on an
    array of its own: it holds the three injected entries, and no array
    the store had is changed. *)
Theorem connect_default_headers (this : ClientV3.t) (url : URL.t)
    (protocols : list string) (σ : store) :
  let '(c, w) := Ws.connect this url protocols None σ in
  σ !! Ws.conn_headers c = None
  ∧ Ws.heap w
    = <[Ws.conn_headers c := [("Host", URL.host url); ("Upgrade", "websocket");
                              ("Connection", "Upgrade")]]> σ
  ∧ ∀ (a : loc) (h : RawHeaders), σ !! a = Some h → Ws.heap w !! a = Some h.
Proof.
  unfold Ws.connect, Store.alloc.
  set (a := fresh (dom σ)).
  assert (Hfresh : σ !! a = None).
  { apply not_elem_of_dom. apply is_fresh. }
  rewrite (push_lookup _ a [] _ (lookup_insert_eq _ _ _)).
  rewrite (push_lookup _ a ([] ++ [("Host", URL.host url)]) _ (lookup_insert_eq _ _ _)).
  rewrite (push_lookup _ a (([] ++ [("Host", URL.host url)]) ++ [("Upgrade", "websocket")])
             _ (lookup_insert_eq _ _ _)).
  rewrite !insert_insert_eq. simpl. split_and!; [done..|].
  intros b h Hb. rewrite lookup_insert_ne; [done|]. intros ->. congruence.
Qed.

(** X7. The [open] handler reads the header array when the socket opens: an
    entry the caller pushes onto its array after [connect] has returned
    and before the socket opens is part of the Connect control message. *)
Theorem handshake_reads_array_at_open (JSON_parse : string -> option JSON.json)
    (this : ClientV3.t) (url : URL.t) (protocols : list string) (a : loc)
    (σ : store) (h : RawHeaders) (e : string * string) :
  σ !! a = Some h →
  let '(c, w) := Ws.connect this url protocols (Some a) σ in
  let later := Ws.mkWorld (Ws.sock w) (Store.push a e (Ws.heap w)) (Ws.trace w) in
  Ws.sent (Ws.trace (Ws.run JSON_parse c later [Ws.Event Ws.EvOpen]))
  = [(Ws.Handshake,
      Ws.Text (JSON.stringify
                 (Ws.connect_message url protocols
                    (h ++ [("Host", URL.host url); ("Upgrade", "websocket");
                           ("Connection", "Upgrade"); e]))))].
Proof.
  intros H. rewrite (connect_some _ _ _ _ _ _ H). cbv zeta.
  unfold Ws.world_of at 1 2 3. cbn [Ws.sock Ws.heap Ws.trace].
  rewrite (push_lookup _ a _ e (lookup_insert_eq _ _ _)), insert_insert_eq.
  change (Ws.mkWorld _ ?hp _) with (Ws.world_of (ClientV3.ws this) hp Ws.initial).
  rewrite run_sim. simpl. unfold Ws.hello, Store.read. simpl.
  rewrite lookup_insert_eq. simpl. by rewrite <- app_assoc.
Qed.

Lemma handshake_reads_array_at_open_witness :
  let later :=
    Ws.mkWorld (Ws.sock (Sample.connect []).2)
               (Store.push 1%positive ("cookie", "k=v") (Ws.heap (Sample.connect []).2))
               (Ws.trace (Sample.connect []).2) in
  Ws.sent (Ws.trace (Ws.run JSON.parse (Sample.connect []).1 later [Ws.Event Ws.EvOpen]))
  = [(Ws.Handshake,
      Ws.Text (Js.dq "{'type':'connect','remote':'https://example.com:8443/x?y=1','protocols':['chat'],'headers':{'Host':'example.com:8443','Upgrade':'websocket','Connection':'Upgrade','cookie':'k=v'},'forwardHeaders':[]}"))].
Proof.
  exact (handshake_reads_array_at_open JSON.parse Sample.client Sample.remote
           ["chat"] 1%positive (Sample.heap1 []) [] ("cookie", "k=v") eq_refl).
Defined.

(** ** The [send] and [close] handed back to the caller *)

Section Closing.

Variable JSON_parse : string -> option JSON.json.
Variable hello : Ws.data.

Local Abbreviation step := (Ws.phase_step JSON_parse hello).
Local Abbreviation run := (Ws.phase_run JSON_parse hello).

(** Until the socket opens, every [send] throws. *)
Lemma connecting_sends (p : Ws.phase) (ds : list Ws.data) :
  Ws.ph_ready p = Ws.CONNECTING →
  (run (p, []) (List.map Ws.CallSend ds)).2
  = List.map (fun _ => Ws.Thrown InvalidStateError) ds.
Proof.
  intros Hrd. induction ds as [|d ds IH]; [done|].
  cbn [List.map]. rewrite phase_run_cons. simpl. rewrite Hrd. simpl.
  by rewrite IH.
Qed.

(** Once the socket is closing or closed, nothing goes out. *)
Lemma closed_sent (p : Ws.phase) (post : list Ws.input) :
  Ws.ph_ready p = Ws.CLOSING ∨ Ws.ph_ready p = Ws.CLOSED →
  Ws.sent (run (p, []) post).2 = [].
Proof.
  revert p. induction post as [|i post IH]; intros [st op rd] Hrd; [done|].
  simpl in Hrd. rewrite phase_run_cons, sent_app.
  destruct i as [[|d|code reason|]|d|code reason]; simpl.
  - destruct Hrd as [-> | ->]; destruct op; simpl; apply IH; simpl; auto.
  - destruct st; [destruct (Ws.reply _ _)|..]; simpl; apply IH; simpl; auto.
  - destruct st; simpl; apply IH; simpl; auto.
  - apply IH; simpl; auto.
  - destruct Hrd as [-> | ->]; simpl; apply IH; simpl; auto.
  - destruct Hrd as [-> | ->]; simpl; apply IH; simpl; auto.
Qed.

Lemma closing_step (p : Ws.phase) (i : Ws.input) :
  Ws.closing i = true →
  (Ws.ph_ready (step p i).1 = Ws.CLOSING ∨ Ws.ph_ready (step p i).1 = Ws.CLOSED)
  ∧ Ws.sent (step p i).2 = [].
Proof.
  destruct p as [st op rd].
  destruct i as [[|d|code reason|]|d|code reason]; try done; intros _; simpl.
  - destruct st; simpl; auto.
  - destruct rd; simpl; auto.
Qed.

End Closing.

Section ConnectSends.

Variable JSON_parse : string -> option JSON.json.
Variables (this : ClientV3.t) (url : URL.t) (protocols : list string)
          (requestHeaders : option loc) (σ : store).
Variables (c : Ws.connection) (w : Ws.world).

Hypothesis connected : Ws.connect this url protocols requestHeaders σ = (c, w).

Local Abbreviation trace_of inputs := (Ws.trace (Ws.run JSON_parse c w inputs)).

(** X8. A caller that sends before the socket has opened gets an
    InvalidStateError from every [send], and nothing else happens: no
    payload goes out, none is kept for later. *)
Theorem early_send_throws (ds : list Ws.data) :
  trace_of (List.map Ws.CallSend ds)
  = List.map (fun _ => Ws.Thrown InvalidStateError) ds.
Proof.
  rewrite (connect_trace JSON_parse this url protocols requestHeaders σ c w connected).
  by apply connecting_sends.
Qed.

(** X9. Once the socket was closed, by a close event or by a [close] of the
    caller that did not throw, nothing more goes out: not what the caller
    sends, and not the Connect control message if the socket had not
    opened. *)
Theorem nothing_sent_after_close (pre post : list Ws.input) (i : Ws.input) :
  Ws.closing i = true →
  Ws.sent (trace_of (pre ++ i :: post)) = Ws.sent (trace_of pre).
Proof.
  intros Hi.
  rewrite !(connect_trace JSON_parse this url protocols requestHeaders σ c w connected).
  unfold Ws.initial. rewrite phase_run_split. cbv zeta.
  rewrite !sent_app.
  destruct (closing_step JSON_parse (Ws.hello c (Ws.heap w))
              (Ws.phase_run JSON_parse (Ws.hello c (Ws.heap w))
                 (Ws.mkPhase Ws.Awaiting true Ws.CONNECTING, []) pre).1 i Hi)
    as [Hrd ->].
  rewrite (closed_sent _ _ _ _ Hrd). by rewrite !app_nil_r.
Qed.

End ConnectSends.

Lemma early_send_throws_witness :
  Ws.trace (Ws.run JSON.parse (Sample.connect []).1 (Sample.connect []).2
                   (List.map Ws.CallSend [Ws.Text "a"; Ws.Blob "b"]))
  = [Ws.Thrown InvalidStateError; Ws.Thrown InvalidStateError].
Proof.
  exact (early_send_throws JSON.parse Sample.client Sample.remote ["chat"]
           (Some 1%positive) (Sample.heap1 []) _ _ eq_refl [Ws.Text "a"; Ws.Blob "b"]).
Defined.

Lemma nothing_sent_after_close_witness :
  Ws.sent
    (Ws.trace (Ws.run JSON.parse (Sample.connect []).1 (Sample.connect []).2
                      ([Ws.CallSend (Ws.Text "early")]
                       ++ Ws.CallClose 1000 "bye"
                          :: [Ws.Event Ws.EvOpen; Ws.CallSend (Ws.Text "late")])))
  = [].
Proof.
  exact (eq_trans
           (nothing_sent_after_close JSON.parse Sample.client Sample.remote ["chat"]
              (Some 1%positive) (Sample.heap1 []) _ _ eq_refl
              [Ws.CallSend (Ws.Text "early")]
              [Ws.Event Ws.EvOpen; Ws.CallSend (Ws.Text "late")]
              (Ws.CallClose 1000 "bye") eq_refl)
           eq_refl).
Defined.

(** ** The endpoints, whatever the base *)


(** X11. The WebSocket endpoint never has the scheme http or https. *)
Theorem ws_never_http (server : URL.t) :
  let c := ClientV3.constructor server in
  URL.scheme (ClientV3.ws c) ≠ "http" ∧ URL.scheme (ClientV3.ws c) ≠ "https".
Proof.
  intros c.
  destruct (constructor_from_base server) as [_ Hws]. fold c in Hws.
  rewrite Hws, set_protocol_ws, set_protocol_wss. unfold URL.file_without_host.
  set (base := Client.base (ClientV3.super c)).
  destruct (String.eqb_spec (URL.scheme base) "https") as [E|Hne].
  - rewrite E. simpl. done.
  - destruct (URL.special (URL.scheme base)) eqn:Hsp; simpl.
    + destruct (String.eqb_spec (URL.scheme base) "file") as [E|_]; simpl.
      * destruct (URL.hostname base) as [h|]; [|done].
        destruct (String.eqb h EmptyString); [|done]. by rewrite E.
      * done.
    + split; [|done]. intros E. by rewrite E in Hsp.
Qed.

(** ** The headers [createBareHeaders] builds *)

Lemma string_app_assoc (a b c : string) : (a +:+ b) +:+ c = a +:+ b +:+ c.
Proof. induction a as [|x a IH]; simpl; [done|by rewrite IH]. Qed.






Lemma fold_left_mapped {A B C : Type} (f : A → C → A) (g : B → C) (l : list B) (a : A) :
  fold_left (fun acc x => f acc (g x)) l a = fold_left f (List.map g l) a.
Proof. revert a. induction l as [|x l IH]; intros a; simpl; [done|apply IH]. Qed.



(** ** Failures of [request] *)

Section Failures.

Variable JSON_parse : string -> option JSON.json.
Variable md5 : string -> string.
Variable fetch : string -> Http.RequestInit -> result Http.Response.
Variable joinHeaders : Headers.t -> result Headers.t.
Variable splitHeaders : Headers.t -> Headers.t.

Variables (this : ClientV3.t) (remote : URL.t) (method : string)
          (body : option Http.bodyinit) (a : loc) (signal : option nat)
          (σ : store).

Local Abbreviation endpoint :=
  (URL.toString (ClientV3.http this) +:+ "?cache=" +:+ md5 (URL.toString remote)).

Local Abbreviation run_request :=
  (Http.request JSON_parse md5 fetch joinHeaders splitHeaders this remote
                method body a signal σ).

(** X13. [request] has no handler of its own: when [fetch] rejects, [request]
    rejects with the same reason, and the caller's array has its [Host]
    entry all the same. *)
Theorem request_fetch_rejects (e : exn) :
  (∀ options, fetch endpoint options = Throw e) →
  run_request = (Store.push a ("Host", URL.host remote) σ, Throw e).
Proof. intros H. unfold Http.request. simpl. by rewrite H. Qed.

(** X14. When the tunnel answers with a success status and [joinHeaders]
    throws on the headers of the answer, [request] rejects with what
    [joinHeaders] threw, whatever the body is. *)
Theorem request_codec_failure (response : Http.Response) (e : exn) :
  (∀ options, fetch endpoint options = Ok response) →
  Http.ok response = true →
  joinHeaders (Http.response_headers response) = Throw e →
  run_request.2 = Throw e.
Proof.
  intros Hf Hok Hj.
  rewrite (request_outcome _ _ _ _ _ _ _ _ _ _ _ _ _ Hf).
  unfold Http.readBareResponse. by rewrite Hok, Hj.
Qed.

(** X15. When the tunnel answers with a success status and an
    [x-bare-headers] that is not a JSON text, [request] rejects with the
    SyntaxError of [JSON.parse]; when it is the JSON text [null], with
    the TypeError of [Object.entries]. A good [x-bare-status] and
    [x-bare-status-text] do not help. *)
Theorem request_headers_undecodable (response : Http.Response)
    (hs : Headers.t) (x : string) :
  (∀ options, fetch endpoint options = Ok response) →
  Http.ok response = true →
  joinHeaders (Http.response_headers response) = Ok hs →
  Headers.get "x-bare-headers" hs = Some x →
  (JSON_parse x = None → run_request.2 = Throw SyntaxError)
  ∧ (JSON_parse x = Some JSON.JNull →
     run_request.2 = Throw (TypeError "Cannot convert undefined or null to object")).
Proof.
  intros Hf Hok Hj Hx.
  rewrite (request_outcome _ _ _ _ _ _ _ _ _ _ _ _ _ Hf).
  rewrite (readBareResponse_success _ _ _ hs Hok Hj). simpl. rewrite Hx.
  split; by intros ->.
Qed.

End Failures.

Lemma request_fetch_rejects_witness :
  Http.request JSON.parse Sample.md5 (fun _ _ => Throw (FetchError "offline"))
               Codec.joinHeaders (Codec.splitHeaders 3072) Sample.client
               Sample.remote "GET" None 1%positive None (Sample.heap1 [])
  = (Store.push 1%positive ("Host", URL.host Sample.remote) (Sample.heap1 []),
     Throw (FetchError "offline")).
Proof.
  apply (request_fetch_rejects JSON.parse Sample.md5
           (fun _ _ => Throw (FetchError "offline"))).
  intros options. reflexivity.
Defined.

Lemma request_codec_failure_witness :
  (Sample.request Sample.gapped []).2 = Throw CodecError.
Proof.
  apply (request_codec_failure JSON.parse Sample.md5 (Sample.tunnel Sample.gapped)
           Codec.joinHeaders (Codec.splitHeaders 3072) Sample.client Sample.remote
           "GET" None 1%positive None (Sample.heap1 []) Sample.gapped CodecError).
  - intros options. reflexivity.
  - reflexivity.
  - vm_compute. reflexivity.
Defined.

Lemma request_headers_undecodable_witness :
  (Sample.request Sample.garbled []).2 = Throw SyntaxError.
Proof.
  apply (request_headers_undecodable JSON.parse Sample.md5
           (Sample.tunnel Sample.garbled) Codec.joinHeaders
           (Codec.splitHeaders 3072) Sample.client Sample.remote "GET" None
           1%positive None (Sample.heap1 []) Sample.garbled
           (Http.response_headers Sample.garbled) "content-type: text/plain").
  - intros options. reflexivity.
  - reflexivity.
  - vm_compute. reflexivity.
  - reflexivity.
  - vm_compute. reflexivity.
Defined.

(** ** The status, written in decimal *)

Lemma prefix_val_uint (d : Decimal.uint) (acc : N) :
  Js.prefix_val 10 (Some acc) (NilEmpty.string_of_uint d)
  = Some (DecimalPos.Unsigned.of_lu (Decimal.rev d)
          + acc * 10 ^ DecimalPos.Unsigned.usize d)%N.
Proof.
  revert acc.
  induction d as [|d IH|d IH|d IH|d IH|d IH|d IH|d IH|d IH|d IH|d IH];
    intros acc;
    [simpl; f_equal; lia|..];
    (unfold Decimal.rev; cbn [Decimal.revapp];
     rewrite DecimalPos.Unsigned.of_lu_revapp; fold (Decimal.rev d);
     cbn [NilEmpty.string_of_uint Js.prefix_val];
     match goal with
     | |- context [Js.radix_val 10 ?c] =>
         change (Js.radix_val 10 c) with (Some (Js.digit_val c))
     end;
     cbv beta iota; rewrite IH; f_equal;
     cbn [DecimalPos.Unsigned.usize DecimalPos.Unsigned.of_lu default from_option id];
     rewrite N.pow_succ_r';
     match goal with
     | |- context [Js.digit_val ?c] =>
         let v := eval vm_compute in (Js.digit_val c) in
         change (Js.digit_val c) with v
     end;
     lia).
Qed.

Lemma prefix_val_decimal (n : N) : Js.prefix_val 10 None (Js.decimal n) = Some n.
Proof.
  unfold Js.decimal.
  assert (N.to_uint n ≠ Decimal.Nil) as Hnn.
  { destruct n; [done|]. apply DecimalPos.Unsigned.to_uint_nonnil. }
  assert (Js.prefix_val 10 None (NilEmpty.string_of_uint (N.to_uint n))
          = Js.prefix_val 10 (Some 0%N) (NilEmpty.string_of_uint (N.to_uint n))) as ->.
  { by destruct (N.to_uint n). }
  rewrite prefix_val_uint, <- DecimalPos.Unsigned.of_uint_alt.
  change (Pos.of_uint (N.to_uint n)) with (N.of_uint (N.to_uint n)).
  rewrite DecimalN.Unsigned.of_to. f_equal. lia.
Qed.

Lemma parseInt_uint (d : Decimal.uint) :
  d ≠ Decimal.Nil →
  Js.parseInt (NilEmpty.string_of_uint d)
  = match Js.prefix_val 10 None (NilEmpty.string_of_uint d) with
    | None => Js.NaN
    | Some n => Js.Int (Z.of_N n)
    end
  ∧ Js.parseInt ("-" +:+ NilEmpty.string_of_uint d)
  = match Js.prefix_val 10 None (NilEmpty.string_of_uint d) with
    | None => Js.NaN
    | Some n => Js.Int (- Z.of_N n)
    end.
Proof.
  intros Hd. destruct d as [|d|d|d|d|d|d|d|d|d|d]; [done|..];
    destruct d; split; reflexivity.
Qed.

Lemma parseInt_decimalZ (z : Z) : Js.parseInt (Js.decimalZ z) = Js.Int z.
Proof.
  assert (∀ n, N.to_uint n ≠ Decimal.Nil) as Hnn.
  { intros [|p]; [done|]. apply DecimalPos.Unsigned.to_uint_nonnil. }
  destruct z as [|p|p]; unfold Js.decimalZ.
  - reflexivity.
  - unfold Js.decimal. rewrite (proj1 (parseInt_uint _ (Hnn _))).
    fold (Js.decimal (Z.to_N (Z.pos p))). by rewrite prefix_val_decimal.
  - unfold Js.decimal. rewrite (proj2 (parseInt_uint _ (Hnn _))).
    fold (Js.decimal (N.pos p)). by rewrite prefix_val_decimal.
Qed.

Section Status.

Variable JSON_parse : string -> option JSON.json.
Variable md5 : string -> string.
Variable fetch : string -> Http.RequestInit -> result Http.Response.
Variable joinHeaders : Headers.t -> result Headers.t.
Variable splitHeaders : Headers.t -> Headers.t.

Variables (this : ClientV3.t) (remote : URL.t) (method : string)
          (body : option Http.bodyinit) (a : loc) (signal : option nat)
          (σ : store).

(** X16. A status the tunnel writes in decimal, negative or not, is the
    status of the logical response: [parseInt] reads back what the
    decimal printing wrote. The status is an integer a JS number holds
    exactly, one below 2^53 in magnitude. *)
Theorem request_status_decimal (response : Http.Response) (hs : Headers.t) (z : Z) :
  (Z.abs z < 2 ^ 53)%Z →
  (∀ options,
     fetch (URL.toString (ClientV3.http this) +:+ "?cache="
            +:+ md5 (URL.toString remote)) options = Ok response) →
  Http.ok response = true →
  joinHeaders (Http.response_headers response) = Ok hs →
  Headers.get "x-bare-status" hs = Some (Js.decimalZ z) →
  (∀ x, Headers.get "x-bare-headers" hs = Some x →
        ∃ v entries, JSON_parse x = Some v ∧ Http.Object_entries v = Ok entries) →
  ∃ r, (Http.request JSON_parse md5 fetch joinHeaders splitHeaders this remote
                     method body a signal σ).2 = Ok r
     ∧ Http.t_status r = Some (Js.Int z).
Proof.
  intros _ Hf Hok Hj Hst Hdec.
  rewrite (request_outcome _ _ _ _ _ _ _ _ _ _ _ _ _ Hf).
  rewrite (readBareResponse_success _ _ _ hs Hok Hj). simpl.
  rewrite Hst. simpl. rewrite parseInt_decimalZ.
  destruct (Headers.get "x-bare-headers" hs) as [x|].
  - destruct (Hdec x eq_refl) as (v & es & -> & Hes). simpl. rewrite Hes.
    simpl. by eexists.
  - simpl. by eexists.
Qed.

End Status.

Lemma request_status_decimal_witness :
  ∃ r, (Sample.request Sample.created_object []).2 = Ok r
     ∧ Http.t_status r = Some (Js.Int 201).
Proof.
  apply (request_status_decimal JSON.parse Sample.md5
           (Sample.tunnel Sample.created_object) Codec.joinHeaders
           (Codec.splitHeaders 3072) Sample.client Sample.remote "GET" None
           1%positive None (Sample.heap1 []) Sample.created_object
           (Http.response_headers Sample.created_object) 201).
  - reflexivity.
  - intros options. reflexivity.
  - reflexivity.
  - vm_compute. reflexivity.
  - reflexivity.
  - intros x [= <-]. by eexists _, _.
Defined.

(** ** The object of a header array *)

Section ObjOrder.
Context {V : Type}.
Implicit Types (o : Obj.t V) (l : list (string * V)) (k : string) (v : V).

Lemma Obj_keys_replace k v o : List.map fst (Obj.replace k v o) = List.map fst o.
Proof.
  induction o as [|[k1 v1] o IH]; simpl; [done|].
  destruct (String.eqb k1 k); simpl; [done|by rewrite IH].
Qed.

Lemma Obj_has_keys k o : Obj.has k o = true ↔ k ∈ List.map fst o.
Proof.
  unfold Obj.has. induction o as [|[k1 v1] o IH]; simpl.
  - split; [done|]. by intros H%elem_of_nil.
  - destruct (String.eqb_spec k1 k) as [->|Hne].
    + split; [intros _; left|done].
    + rewrite IH, elem_of_cons. split; [by right|]. by intros [?|?].
Qed.

(** A new key goes in front of the first key it enumerates before. *)
Lemma Obj_add_split k v o :
  ∃ o1 o2, o = o1 ++ o2 ∧ Obj.add k v o = o1 ++ (k, v) :: o2
         ∧ Forall (fun e => Obj.before k e.1 = false) o1
         ∧ match o2 with [] => True | e :: _ => Obj.before k e.1 = true end.
Proof.
  induction o as [|[k1 v1] o IH]; simpl.
  - by exists [], [].
  - destruct (Obj.before k k1) eqn:E.
    + by exists [], ((k1, v1) :: o).
    + destruct IH as (o1 & o2 & -> & -> & H1 & H2).
      exists ((k1, v1) :: o1), o2. split_and!; try done. by constructor.
Qed.

Lemma Obj_keys_set k v o :
  List.map fst (Obj.set k v o) ≡ₚ
  if Obj.has k o then List.map fst o else k :: List.map fst o.
Proof.
  unfold Obj.set. destruct (Obj.has k o).
  - by rewrite Obj_keys_replace.
  - destruct (Obj_add_split k v o) as (o1 & o2 & -> & -> & _).
    rewrite !map_app. simpl. by rewrite Permutation_middle.
Qed.

Lemma Obj_set_NoDup k v o :
  NoDup (List.map fst o) → NoDup (List.map fst (Obj.set k v o)).
Proof.
  intros Hnd. rewrite Obj_keys_set. destruct (Obj.has k o) eqn:E; [done|].
  apply NoDup_cons. split; [|done].
  intros Hin%Obj_has_keys. congruence.
Qed.

Lemma Obj_fold_set_NoDup l o :
  NoDup (List.map fst o) →
  NoDup (List.map fst (fold_left (fun o e => Obj.set e.1 e.2 o) l o)).
Proof.
  revert o. induction l as [|[k v] l IH]; intros o Hnd; simpl; [done|].
  by apply IH, Obj_set_NoDup.
Qed.

Lemma Obj_fromEntries_NoDup l : NoDup (List.map fst (Obj.fromEntries l)).
Proof. apply Obj_fold_set_NoDup. constructor. Qed.

Lemma Obj_get_is_Some k o : is_Some (Obj.get k o) ↔ k ∈ List.map fst o.
Proof.
  rewrite <- Obj_has_keys. unfold Obj.has.
  destruct (Obj.get k o); split; try done; by intros [? ?].
Qed.

Lemma Obj_fromEntries_keys k l :
  k ∈ List.map fst (Obj.fromEntries l) ↔ k ∈ List.map fst l.
Proof.
  rewrite <- !Obj_get_is_Some, Obj_get_fromEntries. unfold Obj.last_value.
  rewrite !Obj_get_is_Some, map_rev, !list_elem_of_In. symmetry. apply in_rev.
Qed.

(** *** Enumeration order *)

Lemma before_trans_false k k1 k2 :
  Obj.before k k1 = true → Obj.before k2 k1 = false → Obj.before k2 k = false.
Proof.
  unfold Obj.before.
  destruct (Obj.array_index k), (Obj.array_index k1), (Obj.array_index k2);
    try done; intros H1 H2;
    try apply N.ltb_lt in H1; try apply N.ltb_ge in H2; apply N.ltb_ge; lia.
Qed.

Lemma before_irrefl_after k k1 : Obj.before k k1 = true → Obj.before k1 k = false.
Proof.
  unfold Obj.before.
  destruct (Obj.array_index k), (Obj.array_index k1); try done.
  intros H1%N.ltb_lt. apply N.ltb_ge. lia.
Qed.

Lemma ordered_app (a b : list string) :
  Obj.ordered (a ++ b) = true ↔
  Obj.ordered a = true ∧ Obj.ordered b = true
  ∧ Forall (fun x => Forall (fun y => Obj.before y x = false) b) a.
Proof.
  induction a as [|x a IH]; simpl.
  - split; [by intros ->|by intros (_ & ? & _)].
  - rewrite !andb_true_iff, IH, forallb_app, andb_true_iff, Forall_cons.
    rewrite !forallb_forall, !Forall_forall.
    setoid_rewrite negb_true_iff. setoid_rewrite <- list_elem_of_In.
    tauto.
Qed.

Lemma ordered_cons (x : string) (b : list string) :
  Obj.ordered (x :: b) = true ↔
  Forall (fun y => Obj.before y x = false) b ∧ Obj.ordered b = true.
Proof.
  simpl. rewrite andb_true_iff, forallb_forall, Forall_forall.
  setoid_rewrite negb_true_iff. by setoid_rewrite <- list_elem_of_In.
Qed.

Lemma Obj_set_ordered k v o :
  Obj.ordered (List.map fst o) = true →
  Obj.ordered (List.map fst (Obj.set k v o)) = true.
Proof.
  intros Hord. unfold Obj.set. destruct (Obj.has k o).
  { by rewrite Obj_keys_replace. }
  destruct (Obj_add_split k v o) as (o1 & o2 & -> & -> & H1 & H2).
  rewrite map_app in Hord |- *. simpl.
  apply ordered_app in Hord as (Ha & Hb & Hab).
  apply ordered_app. split_and!; [done| |].
  - apply ordered_cons. split; [|done].
    destruct o2 as [|[k2 v2] o2]; [constructor|]. simpl in *.
    apply ordered_cons in Hb as [Hb _].
    constructor.
    + by apply before_irrefl_after.
    + eapply Forall_impl; [exact Hb|]. simpl. intros y Hy.
      by apply (before_trans_false k k2 y).
  - rewrite Forall_forall in Hab |- *. intros x Hx.
    constructor; [|by apply Hab].
    rewrite Forall_forall in H1.
    apply list_elem_of_fmap in Hx as (e & -> & He). by apply H1.
Qed.

Lemma Obj_fold_set_ordered l o :
  Obj.ordered (List.map fst o) = true →
  Obj.ordered (List.map fst (fold_left (fun o e => Obj.set e.1 e.2 o) l o)) = true.
Proof.
  revert o. induction l as [|[k v] l IH]; intros o Hord; simpl; [done|].
  by apply IH, Obj_set_ordered.
Qed.

Lemma Obj_fromEntries_ordered l :
  Obj.ordered (List.map fst (Obj.fromEntries l)) = true.
Proof. by apply Obj_fold_set_ordered. Qed.

(** Setting the members of an object in enumeration order on a fresh
    object gives the object back. *)
Lemma Obj_fold_set_ordered_id l o :
  NoDup (List.map fst (o ++ l)) →
  Obj.ordered (List.map fst (o ++ l)) = true →
  fold_left (fun o e => Obj.set e.1 e.2 o) l o = o ++ l.
Proof.
  revert o. induction l as [|[k v] l IH]; intros o Hnd Hord; simpl.
  - by rewrite app_nil_r.
  - assert (Obj.set k v o = o ++ [(k, v)]) as ->.
    { unfold Obj.set.
      rewrite map_app in Hnd, Hord. simpl in Hnd, Hord.
      apply NoDup_app in Hnd as (_ & Hnd & _).
      assert (Obj.has k o = false) as ->.
      { destruct (Obj.has k o) eqn:E; [|done].
        apply Obj_has_keys in E. exfalso. apply (Hnd k E). left. }
      apply ordered_app in Hord as (_ & _ & Hab).
      destruct (Obj_add_split k v o) as (o1 & o2 & -> & -> & _ & H2).
      destruct o2 as [|[k2 v2] o2]; [by rewrite app_nil_r|]. exfalso.
      rewrite map_app, Forall_app in Hab. destruct Hab as [_ Hab].
      simpl in Hab. apply Forall_cons in Hab as [Hab _].
      apply Forall_cons in Hab as [Hab _]. simpl in H2. congruence. }
    rewrite IH; rewrite <- ?app_assoc; done.
Qed.

Lemma Obj_fromEntries_idempotent l :
  Obj.fromEntries (Obj.fromEntries l) = Obj.fromEntries l.
Proof.
  unfold Obj.fromEntries at 1.
  rewrite Obj_fold_set_ordered_id; [done|..]; simpl.
  - apply Obj_fromEntries_NoDup.
  - apply Obj_fromEntries_ordered.
Qed.

(** A stale value of a name is overwritten in place. *)
Lemma Obj_set_set k v1 v2 o :
  Obj.set k v2 (Obj.set k v1 o) = Obj.set k v2 o.
Proof.
  unfold Obj.set at 1.
  assert (Obj.has k (Obj.set k v1 o) = true) as ->.
  { unfold Obj.has. rewrite Obj_get_set. by rewrite String.eqb_refl. }
  unfold Obj.set. destruct (Obj.has k o) eqn:E.
  - clear E. induction o as [|[k1 x] o IH]; simpl; [done|].
    destruct (String.eqb k1 k) eqn:E1; simpl; rewrite E1; [done|by rewrite IH].
  - assert (Obj.get k o = None) as Hn.
    { unfold Obj.has in E. by destruct (Obj.get k o). }
    clear E. induction o as [|[k1 x] o IH]; simpl.
    + by rewrite String.eqb_refl.
    + simpl in Hn. destruct (String.eqb k1 k) eqn:E1; [done|].
      destruct (Obj.before k k1); simpl.
      * by rewrite String.eqb_refl.
      * rewrite E1. by rewrite IH.
Qed.

Lemma Obj_fromEntries_stale l k (vs : list V) v :
  Obj.fromEntries (l ++ List.map (pair k) vs ++ [(k, v)])
  = Obj.fromEntries (l ++ [(k, v)]).
Proof.
  unfold Obj.fromEntries. rewrite !fold_left_app. simpl.
  generalize (fold_left (fun o e => Obj.set e.1 e.2 o) l []). intros o.
  revert o. induction vs as [|x vs IH]; intros o; simpl; [done|].
  rewrite IH. apply Obj_set_set.
Qed.

End ObjOrder.

Lemma last_value_app {V : Type} (n : string) (l t : list (string * V)) :
  Obj.last_value n (l ++ t) =
  match Obj.last_value n t with Some v => Some v | None => Obj.last_value n l end.
Proof. unfold Obj.last_value. by rewrite rev_app_distr, Obj_get_app. Qed.

(** X17. The object [Object.fromEntries] makes of a header array, which
    [createBareHeaders] and the [open] handler of [connect] serialize:
    no name twice, exactly the names of the array, each with a string
    value, array-index names first in ascending order; and making an
    object of its entries again changes nothing. *)
Theorem headers_object_members (h : RawHeaders) :
  ∃ o, Http.headers_object h = JSON.JObj o
     ∧ NoDup (List.map fst o)
     ∧ (∀ n, n ∈ List.map fst o ↔ n ∈ List.map fst h)
     ∧ (∀ n, Obj.get n o = JSON.JStr <$> Obj.last_value n h)
     ∧ Obj.ordered (List.map fst o) = true
     ∧ Obj.fromEntries o = o.
Proof.
  eexists. split; [reflexivity|].
  assert (List.map fst (List.map (fun e : string * string => (e.1, JSON.JStr e.2))
                                 (Obj.fromEntries h))
          = List.map fst (Obj.fromEntries h)) as Hkeys.
  { rewrite List.map_map. simpl. done. }
  rewrite Hkeys. split_and!.
  - apply Obj_fromEntries_NoDup.
  - intros n. exact (Obj_fromEntries_keys n h).
  - intros n. by rewrite Obj_get_map_JStr, Obj_get_fromEntries.
  - apply Obj_fromEntries_ordered.
  - unfold Obj.fromEntries at 1.
    rewrite Obj_fold_set_ordered_id; [done|..]; simpl; rewrite Hkeys.
    + apply Obj_fromEntries_NoDup.
    + apply Obj_fromEntries_ordered.
Qed.

Section Injected.

Variable JSON_parse : string -> option JSON.json.
Variable md5 : string -> string.
Variable joinHeaders : Headers.t -> result Headers.t.
Variable splitHeaders : Headers.t -> Headers.t.

Variables (this : ClientV3.t) (remote : URL.t) (method : string)
          (body : option Http.bodyinit) (a : loc) (signal : option nat)
          (σ : store).

(** What [request] hands to [fetch] when the headers object is [o]. *)
Local Abbreviation fetched fetch o :=
  (fetch (URL.toString (ClientV3.http this) +:+ "?cache="
          +:+ md5 (URL.toString remote))
         (Http.mkInit "omit" method signal "half" body
            (Some (splitHeaders
                     [("x-bare-url", URL.toString remote);
                      ("x-bare-headers", JSON.stringify (JSON.JObj o))])))).

Local Abbreviation outcome fetch :=
  (Http.request JSON_parse md5 fetch joinHeaders splitHeaders this remote
                method body a signal σ).2.

Lemma request_fetched (h : RawHeaders) :
  σ !! a = Some h →
  ∃ k, ∀ fetch,
    outcome fetch
    = fetched fetch
        (List.map (fun e : string * string => (e.1, JSON.JStr e.2))
           (Obj.fromEntries (h ++ [("Host", URL.host remote)]))) ≫= k.
Proof.
  intros H. eexists. intros fetch. unfold Http.request. simpl.
  rewrite (push_lookup σ a h _ H). unfold Store.read.
  rewrite lookup_insert_eq. simpl. rewrite createBareHeaders_plain.
  destruct body; reflexivity.
Qed.

(** X18. The [Host] of the headers object [request] sends is the host of the
    remote, whatever the caller's array says about [Host]; every other
    name, [host] in lower case among them, keeps the caller's last value. *)
Theorem request_host_wins (h : RawHeaders) :
  σ !! a = Some h →
  ∃ o k,
    (∀ fetch, outcome fetch = fetched fetch o ≫= k)
    ∧ Obj.get "Host" o = Some (JSON.JStr (URL.host remote))
    ∧ ∀ n, n ≠ "Host" → Obj.get n o = JSON.JStr <$> Obj.last_value n h.
Proof.
  intros H. destruct (request_fetched h H) as [k Hk].
  eexists _, k. split; [exact Hk|].
  split.
  - rewrite Obj_get_map_JStr, Obj_get_fromEntries, last_value_app. done.
  - intros n Hn. rewrite Obj_get_map_JStr, Obj_get_fromEntries, last_value_app.
    change (Obj.last_value n [("Host", URL.host remote)])
      with (if String.eqb "Host" n then Some (URL.host remote) else None).
    apply String.eqb_neq in Hn. rewrite String.eqb_sym in Hn. by rewrite Hn.
Qed.

(** X19. An array that earlier requests have used holds their [Host] entries
    at its end. The next request sends the headers object it would send
    for the array without them. *)
Theorem request_reused_array (h : RawHeaders) (earlier : list URL.t) :
  σ !! a = Some (h ++ List.map (fun r => ("Host", URL.host r)) earlier) →
  ∃ k, ∀ fetch,
    outcome fetch
    = fetched fetch
        (List.map (fun e : string * string => (e.1, JSON.JStr e.2))
           (Obj.fromEntries (h ++ [("Host", URL.host remote)]))) ≫= k.
Proof.
  intros H. destruct (request_fetched _ H) as [k Hk].
  exists k. intros fetch. rewrite Hk.
  rewrite <- (List.map_map URL.host (pair "Host")), <- app_assoc.
  by rewrite Obj_fromEntries_stale.
Qed.

End Injected.

Lemma request_host_wins_witness :
  ∃ o k,
    (∀ fetch,
       (Http.request JSON.parse Sample.md5 fetch Codec.joinHeaders
          (Codec.splitHeaders 3072) Sample.client Sample.remote "GET" None
          1%positive None (Sample.heap1 [("Host", "localhost"); ("host", "other")])).2
       = fetch (URL.toString (ClientV3.http Sample.client) +:+ "?cache="
                +:+ Sample.md5 (URL.toString Sample.remote))
               (Http.mkInit "omit" "GET" None "half" None
                  (Some (Codec.splitHeaders 3072
                           [("x-bare-url", URL.toString Sample.remote);
                            ("x-bare-headers", JSON.stringify (JSON.JObj o))])))
         ≫= k)
    ∧ Obj.get "Host" o = Some (JSON.JStr "example.com:8443")
    ∧ Obj.get "host" o = Some (JSON.JStr "other").
Proof.
  destruct (request_host_wins JSON.parse Sample.md5 Codec.joinHeaders
              (Codec.splitHeaders 3072) Sample.client Sample.remote "GET" None
              1%positive None
              (Sample.heap1 [("Host", "localhost"); ("host", "other")])
              [("Host", "localhost"); ("host", "other")] eq_refl)
    as (o & k & Hk & Hhost & Hrest).
  exists o, k. split; [exact Hk|]. split; [exact Hhost|].
  by rewrite (Hrest "host").
Defined.

Lemma request_reused_array_witness :
  (Http.request JSON.parse Sample.md5 Sample.echo Codec.joinHeaders
     (Codec.splitHeaders 3072) Sample.client Sample.http_base "GET" None
     1%positive None (Sample.request Sample.created_object [("accept", "text/html")]).1).2
  = Throw (FetchError (Js.dq "{'accept':'text/html','Host':'host'}")).
Proof.
  destruct (request_reused_array JSON.parse Sample.md5 Codec.joinHeaders
              (Codec.splitHeaders 3072) Sample.client Sample.http_base "GET" None
              1%positive None
              (Sample.request Sample.created_object [("accept", "text/html")]).1
              [("accept", "text/html")] [Sample.remote] eq_refl) as [k Hk].
  rewrite Hk. reflexivity.
Defined.

(** X20. The [Host], [Upgrade] and [Connection] of the Connect control
    message are the ones [connect] pushed, whatever the caller's array
    says about these names; every other name keeps the caller's last
    value. *)
Theorem connect_injected_win (JSON_parse : string -> option JSON.json)
    (this : ClientV3.t) (url : URL.t) (protocols : list string) (a : loc)
    (σ : store) (h : RawHeaders) :
  σ !! a = Some h →
  let '(c, w) := Ws.connect this url protocols (Some a) σ in
  ∃ o,
    Ws.sent (Ws.trace (Ws.run JSON_parse c w [Ws.Event Ws.EvOpen]))
    = [(Ws.Handshake,
        Ws.Text (JSON.stringify
                   (JSON.JObj
                      [("type", JSON.JStr "connect");
                       ("remote", JSON.JStr (URL.toString url));
                       ("protocols", JSON.JArr (List.map JSON.JStr protocols));
                       ("headers", JSON.JObj o);
                       ("forwardHeaders", JSON.JArr [])])))]
    ∧ Obj.get "Host" o = Some (JSON.JStr (URL.host url))
    ∧ Obj.get "Upgrade" o = Some (JSON.JStr "websocket")
    ∧ Obj.get "Connection" o = Some (JSON.JStr "Upgrade")
    ∧ ∀ n, n ≠ "Host" → n ≠ "Upgrade" → n ≠ "Connection" →
           Obj.get n o = JSON.JStr <$> Obj.last_value n h.
Proof.
  intros H. rewrite (connect_some _ _ _ _ _ _ H). rewrite run_sim.
  exists (List.map (fun e : string * string => (e.1, JSON.JStr e.2))
            (Obj.fromEntries
               (h ++ [("Host", URL.host url); ("Upgrade", "websocket");
                      ("Connection", "Upgrade")]))).
  split.
  { simpl. unfold Ws.hello, Store.read. simpl. rewrite lookup_insert_eq.
    reflexivity. }
  split_and!;
    try (rewrite Obj_get_map_JStr, Obj_get_fromEntries, last_value_app;
         reflexivity).
  intros n H1 H2 H3.
  rewrite Obj_get_map_JStr, Obj_get_fromEntries, last_value_app.
  change (Obj.last_value n [("Host", URL.host url); ("Upgrade", "websocket");
                            ("Connection", "Upgrade")])
    with (if String.eqb "Connection" n then Some "Upgrade"
          else if String.eqb "Upgrade" n then Some "websocket"
          else if String.eqb "Host" n then Some (URL.host url) else None).
  apply String.eqb_neq in H1, H2, H3.
  rewrite String.eqb_sym in H1. rewrite String.eqb_sym in H2.
  rewrite String.eqb_sym in H3. by rewrite H1, H2, H3.
Qed.

Lemma connect_injected_win_witness :
  ∃ o,
    Ws.sent (Ws.trace (Ws.run JSON.parse
                         (Sample.connect [("Upgrade", "h2c"); ("cookie", "k=v")]).1
                         (Sample.connect [("Upgrade", "h2c"); ("cookie", "k=v")]).2
                         [Ws.Event Ws.EvOpen]))
    = [(Ws.Handshake,
        Ws.Text (JSON.stringify
                   (JSON.JObj
                      [("type", JSON.JStr "connect");
                       ("remote", JSON.JStr (URL.toString Sample.remote));
                       ("protocols", JSON.JArr [JSON.JStr "chat"]);
                       ("headers", JSON.JObj o);
                       ("forwardHeaders", JSON.JArr [])])))]
    ∧ Obj.get "Upgrade" o = Some (JSON.JStr "websocket")
    ∧ Obj.get "cookie" o = Some (JSON.JStr "k=v").
Proof.
  destruct (connect_injected_win JSON.parse Sample.client Sample.remote ["chat"]
              1%positive (Sample.heap1 [("Upgrade", "h2c"); ("cookie", "k=v")])
              [("Upgrade", "h2c"); ("cookie", "k=v")] eq_refl)
    as (o & Hs & _ & Hu & _ & Hrest).
  exists o. split; [exact Hs|]. split; [exact Hu|].
  by rewrite (Hrest "cookie").
Defined.

(** ** Texts written by [JSON.stringify], read by [JSON.parse] *)

Lemma string_body_escape_char (c : ascii) (r : string) :
  JSON.string_body (JSON.escape_char c +:+ r) = JSON.cons_char c (JSON.string_body r).
Proof. destruct c as [[] [] [] [] [] [] [] []]; reflexivity. Qed.

Lemma string_body_escape (x rest : string) :
  JSON.string_body (JSON.escape x +:+ String Js.dquote rest) = Some (x, rest).
Proof.
  induction x as [|c x IH]; [reflexivity|].
  cbn [JSON.escape]. rewrite string_app_assoc, string_body_escape_char, IH.
  reflexivity.
Qed.

Lemma string_body_quote (x rest : string) :
  ∃ r, JSON.quote x +:+ rest = String Js.dquote r
     ∧ JSON.string_body r = Some (x, rest).
Proof.
  eexists. split; [reflexivity|].
  rewrite string_app_assoc. apply string_body_escape.
Qed.

Lemma stringify_head (j : JSON.json) :
  JSON.number_free j = true →
  ∃ c r, JSON.stringify j = String c r
       ∧ (c = Js.dquote ∨ c = "["%char ∨ c = "{"%char ∨ c = "t"%char
          ∨ c = "f"%char ∨ c = "n"%char).
Proof.
  destruct j as [|[]|n|s|l|o]; simpl; intros H; try done; eexists _, _;
    (split; [reflexivity|]); tauto.
Qed.

Lemma join_cons (sep x : string) (l : list string) :
  Js.join sep (x :: l)
  = x +:+ match l with [] => EmptyString | _ :: _ => sep +:+ Js.join sep l end.
Proof. destruct l; simpl; [by rewrite string_app_nil_r|done]. Qed.

(** The text of one member of an object. *)
Local Abbreviation member_text :=
  (fun e : string * JSON.json => JSON.quote e.1 +:+ ":" +:+ JSON.stringify e.2).

Lemma value_string (f : nat) (r : string) :
  JSON.value (S f) (String Js.dquote r)
  = match JSON.string_body r with
    | Some (x, r') => Some (JSON.JStr x, r')
    | None => None
    end.
Proof. reflexivity. Qed.

Lemma value_array (f : nat) (r : string) :
  JSON.value (S f) (String "[" r)
  = match JSON.skip_ws r with
    | String "]" r' => Some (JSON.JArr [], r')
    | _ => JSON.elements f r []
    end.
Proof. reflexivity. Qed.

Lemma value_object (f : nat) (r : string) :
  JSON.value (S f) (String "{" r)
  = match JSON.skip_ws r with
    | String "}" r' => Some (JSON.JObj [], r')
    | _ => JSON.members f r []
    end.
Proof. reflexivity. Qed.

Lemma elements_step (f : nat) (s : string) (acc : list JSON.json) :
  JSON.elements (S f) s acc
  = match JSON.value f s with
    | Some (v, r) =>
        match JSON.skip_ws r with
        | String "," r' => JSON.elements f r' (v :: acc)
        | String "]" r' => Some (JSON.JArr (rev (v :: acc)), r')
        | _ => None
        end
    | None => None
    end.
Proof. reflexivity. Qed.

Lemma members_step (f : nat) (r : string) (acc : Obj.t JSON.json) :
  JSON.members (S f) (String Js.dquote r) acc
  = match JSON.string_body r with
    | Some (k, r1) =>
        match JSON.skip_ws r1 with
        | String ":" r2 =>
            match JSON.value f r2 with
            | Some (v, r3) =>
                let acc' := Obj.set k v acc in
                match JSON.skip_ws r3 with
                | String "," r4 => JSON.members f r4 acc'
                | String "}" r4 => Some (JSON.JObj acc', r4)
                | _ => None
                end
            | None => None
            end
        | _ => None
        end
    | None => None
    end.
Proof. reflexivity. Qed.

(** The characters a value starts with. *)
Local Abbreviation opening s :=
  (∃ c r, s = String c r
        ∧ (c = Js.dquote ∨ c = "["%char ∨ c = "{"%char ∨ c = "t"%char
           ∨ c = "f"%char ∨ c = "n"%char)).

Lemma opening_stringify (j : JSON.json) (rest : string) :
  JSON.number_free j = true → opening (JSON.stringify j +:+ rest).
Proof.
  intros Hj. destruct (stringify_head j Hj) as (c & r & -> & Hc).
  by exists c, (r +:+ rest).
Qed.

Lemma opening_quote (k rest : string) : opening (JSON.quote k +:+ rest).
Proof. eexists _, _. split; [reflexivity|]. by left. Qed.

(** A value does not start with a closing bracket. *)
Lemma opening_not_closing {A : Type} (s : string) (a1 a2 : string → A) (b1 b2 : A) :
  opening s →
  match JSON.skip_ws s with
  | String "]" r' => a1 r'
  | _ => b1
  end = b1
  ∧ match JSON.skip_ws s with
    | String "}" r' => a2 r'
    | _ => b2
    end = b2.
Proof.
  intros (c & r & -> & Hc).
  destruct Hc as [->|[->|[->|[->|[->| ->]]]]]; by split.
Qed.

Lemma value_parses (fuel : nat) :
  (∀ j rest,
     JSON.number_free j = true →
     (String.length (JSON.stringify j) ≤ fuel)%nat →
     JSON.value fuel (JSON.stringify j +:+ rest) = Some (JSON.normal j, rest))
  ∧ (∀ x l rest acc,
       forallb JSON.number_free (x :: l) = true →
       (String.length (Js.join "," (List.map JSON.stringify (x :: l))) < fuel)%nat →
       JSON.elements fuel
         (Js.join "," (List.map JSON.stringify (x :: l)) +:+ String "]" rest) acc
       = Some (JSON.JArr (rev acc ++ List.map JSON.normal (x :: l)), rest))
  ∧ (∀ e o rest acc,
       forallb (fun e => JSON.number_free e.2) (e :: o) = true →
       (String.length (Js.join "," (List.map member_text (e :: o))) < fuel)%nat →
       JSON.members fuel
         (Js.join "," (List.map member_text (e :: o)) +:+ String "}" rest) acc
       = Some (JSON.JObj
                 (fold_left (fun a e => Obj.set e.1 (JSON.normal e.2) a) (e :: o) acc),
               rest)).
Proof.
  induction fuel as [|f (IHv & IHe & IHm)].
  { split_and!.
    - intros j rest Hj Hlen. destruct (stringify_head j Hj) as (c & r & E & _).
      rewrite E in Hlen. simpl in Hlen. lia.
    - intros; lia.
    - intros; lia. }
  split_and!.
  - intros j rest Hj Hlen. destruct j as [|[]|n|s|l|o]; try done.
    + destruct (string_body_quote s rest) as (r & E & Hr).
      cbn [JSON.stringify JSON.normal]. rewrite E, value_string, Hr. done.
    + (* an array *)
      destruct l as [|x l]; [reflexivity|].
      change (JSON.number_free (JSON.JArr (x :: l)))
        with (forallb JSON.number_free (x :: l)) in Hj.
      change (JSON.stringify (JSON.JArr (x :: l)))
        with (String "[" (Js.join "," (List.map JSON.stringify (x :: l)) +:+ "]"))
        in Hlen |- *.
      cbn [String.length] in Hlen. rewrite string_length_app in Hlen.
      cbn [String.length] in Hlen.
      cbn [String.append]. rewrite value_array, string_app_assoc.
      change ("]" +:+ rest) with (String "]" rest).
      cbn [JSON.normal].
      change (JSON.JArr (List.map JSON.normal (x :: l)))
        with (JSON.JArr (rev [] ++ List.map JSON.normal (x :: l))).
      rewrite <- (IHe x l rest []) by (done || lia).
      apply opening_not_closing; [exact (fun _ => None)|exact None|].
      cbn [List.map]. rewrite join_cons, string_app_assoc.
      apply opening_stringify.
      simpl in Hj. by apply andb_true_iff in Hj as [? ?].
    + (* an object *)
      destruct o as [|e o]; [reflexivity|].
      change (JSON.number_free (JSON.JObj (e :: o)))
        with (forallb (fun e => JSON.number_free e.2) (e :: o)) in Hj.
      change (JSON.stringify (JSON.JObj (e :: o)))
        with (String "{" (Js.join "," (List.map member_text (e :: o)) +:+ "}"))
        in Hlen |- *.
      cbn [String.length] in Hlen. rewrite string_length_app in Hlen.
      cbn [String.length] in Hlen.
      cbn [String.append]. rewrite value_object, string_app_assoc.
      change ("}" +:+ rest) with (String "}" rest).
      cbn [JSON.normal]. unfold Obj.fromEntries.
      rewrite <- (fold_left_mapped (fun a e => Obj.set e.1 e.2 a)
                    (fun e : string * JSON.json => (e.1, JSON.normal e.2))).
      cbn [fst snd].
      rewrite <- (IHm e o rest []) by (done || lia).
      apply (opening_not_closing _ (fun _ => None) _ None).
      cbn [List.map]. rewrite join_cons, !string_app_assoc.
      apply opening_quote.
  - (* the elements of an array *)
    intros x l rest acc Hj Hlen.
    cbn [forallb] in Hj. apply andb_true_iff in Hj as [Hx Hl].
    rewrite elements_step.
    cbn [List.map] in Hlen |- *. rewrite join_cons in Hlen |- *.
    rewrite string_length_app in Hlen. rewrite string_app_assoc.
    rewrite IHv by (done || lia).
    destruct l as [|y l].
    + reflexivity.
    + pose proof (IHe y l rest (JSON.normal x :: acc) Hl) as IH.
      cbn [List.map String.append String.length] in Hlen, IH |- *.
      change (JSON.skip_ws (String "," ?s)) with (String "," s).
      cbv beta iota. rewrite IH by lia.
      cbn [rev]. by rewrite <- app_assoc.
  - (* the members of an object *)
    intros [k v] o rest acc Hj Hlen.
    cbn [forallb snd] in Hj. apply andb_true_iff in Hj as [Hv Ho].
    cbn [List.map fst snd] in Hlen |- *. rewrite join_cons in Hlen |- *.
    rewrite !string_length_app in Hlen. rewrite !string_app_assoc.
    destruct (string_body_quote k
                (":" +:+ JSON.stringify v +:+
                 match List.map member_text o with
                 | [] => EmptyString
                 | _ :: _ => "," +:+ Js.join "," (List.map member_text o)
                 end +:+ String "}" rest)) as (r & E & Hr).
    rewrite E, members_step, Hr.
    change (JSON.skip_ws (":" +:+ ?s)) with (String ":" s). cbv beta iota.
    cbn [String.length] in Hlen.
    rewrite IHv by (done || lia). cbv zeta.
    destruct o as [|e o].
    + reflexivity.
    + pose proof (IHm e o rest (Obj.set k (JSON.normal v) acc) Ho) as IH.
      cbn [List.map String.append String.length] in Hlen, IH |- *.
      change (JSON.skip_ws (String "," ?s)) with (String "," s).
      cbv beta iota. rewrite IH by lia.
      reflexivity.
Qed.

(** [JSON.parse] reads the text [JSON.stringify] writes for a value
    without numbers, as the value with the members of every object
    assigned one after the other. *)
Lemma parse_stringify (j : JSON.json) :
  JSON.number_free j = true →
  JSON.parse (JSON.stringify j) = Some (JSON.normal j).
Proof.
  intros Hj. unfold JSON.parse.
  rewrite <- (string_app_nil_r (JSON.stringify j)) at 2.
  rewrite (proj1 (value_parses _)) by (done || lia). reflexivity.
Qed.

Lemma normal_strings (l : list string) :
  List.map JSON.normal (List.map JSON.JStr l) = List.map JSON.JStr l.
Proof. induction l as [|x l IH]; simpl; [done|by rewrite IH]. Qed.

Lemma number_free_strings (l : list string) :
  forallb JSON.number_free (List.map JSON.JStr l) = true.
Proof. by induction l. Qed.

Lemma number_free_headers_object (h : RawHeaders) :
  JSON.number_free (Http.headers_object h) = true.
Proof.
  unfold Http.headers_object. cbn [JSON.number_free].
  by induction (Obj.fromEntries h) as [|[k v] o IH].
Qed.

Lemma normal_headers_object (h : RawHeaders) :
  JSON.normal (Http.headers_object h) = Http.headers_object h.
Proof.
  unfold Http.headers_object. cbn [JSON.normal]. f_equal.
  rewrite List.map_map. cbn [fst snd JSON.normal].
  unfold Obj.fromEntries at 1.
  rewrite Obj_fold_set_ordered_id; [done|..]; simpl;
    rewrite List.map_map; cbn [fst].
  - apply Obj_fromEntries_NoDup.
  - apply Obj_fromEntries_ordered.
Qed.

Lemma parse_headers_object (h : RawHeaders) :
  JSON.parse (JSON.stringify (Http.headers_object h)) = Some (Http.headers_object h).
Proof.
  rewrite parse_stringify by apply number_free_headers_object.
  by rewrite normal_headers_object.
Qed.

Lemma parse_connect_message (url : URL.t) (protocols : list string) (h : RawHeaders) :
  JSON.parse (JSON.stringify (Ws.connect_message url protocols h))
  = Some (Ws.connect_message url protocols h).
Proof.
  rewrite parse_stringify.
  - unfold Ws.connect_message. cbn [JSON.normal List.map fst snd].
    rewrite normal_strings, normal_headers_object. reflexivity.
  - unfold Ws.connect_message. cbn [JSON.number_free forallb snd].
    by rewrite number_free_strings, number_free_headers_object.
Qed.

(** X21. The Connect control message [connect] sends when the socket opens is
    a JSON text. Read back, it is an object with the members of a
    [SocketClientToServer] message, in this order: [type], the string
    [connect]; [remote], the remote as a string; [protocols], an array of
    strings; [headers], the object of the header array, its values
    strings; [forwardHeaders], an empty array. *)
Theorem connect_message_wellformed (JSON_parse : string -> option JSON.json)
    (this : ClientV3.t) (url : URL.t) (protocols : list string) (a : loc)
    (σ : store) (h : RawHeaders) :
  σ !! a = Some h →
  let '(c, w) := Ws.connect this url protocols (Some a) σ in
  ∃ text,
    Ws.sent (Ws.trace (Ws.run JSON_parse c w [Ws.Event Ws.EvOpen]))
    = [(Ws.Handshake, Ws.Text text)]
    ∧ JSON.parse text
      = Some (JSON.JObj
                [("type", JSON.JStr "connect");
                 ("remote", JSON.JStr (URL.toString url));
                 ("protocols", JSON.JArr (List.map JSON.JStr protocols));
                 ("headers",
                  Http.headers_object
                    (h ++ [("Host", URL.host url); ("Upgrade", "websocket");
                           ("Connection", "Upgrade")]));
                 ("forwardHeaders", JSON.JArr [])]).
Proof.
  intros H. rewrite (connect_some _ _ _ _ _ _ H). rewrite run_sim.
  eexists. split.
  { simpl. unfold Ws.hello, Store.read. simpl. rewrite lookup_insert_eq.
    reflexivity. }
  apply parse_connect_message.
Qed.

Lemma connect_message_wellformed_witness :
  ∃ text,
    Ws.sent (Ws.trace (Ws.run JSON.parse (Sample.connect [("cookie", "k=v")]).1
                         (Sample.connect [("cookie", "k=v")]).2 [Ws.Event Ws.EvOpen]))
    = [(Ws.Handshake, Ws.Text text)]
    ∧ JSON.parse text
      = Some (JSON.JObj
                [("type", JSON.JStr "connect");
                 ("remote", JSON.JStr "https://example.com:8443/x?y=1");
                 ("protocols", JSON.JArr [JSON.JStr "chat"]);
                 ("headers",
                  JSON.JObj [("cookie", JSON.JStr "k=v");
                             ("Host", JSON.JStr "example.com:8443");
                             ("Upgrade", JSON.JStr "websocket");
                             ("Connection", JSON.JStr "Upgrade")]);
                 ("forwardHeaders", JSON.JArr [])]).
Proof.
  exact (connect_message_wellformed JSON.parse Sample.client Sample.remote ["chat"]
           1%positive (Sample.heap1 [("cookie", "k=v")]) [("cookie", "k=v")] eq_refl).
Defined.

Section Loopback.

Variable JSON_parse : string -> option JSON.json.
Variable md5 : string -> string.
Variable joinHeaders : Headers.t -> result Headers.t.
Variable splitHeaders : Headers.t -> Headers.t.

Variables (this : ClientV3.t) (remote : URL.t) (method : string)
          (body : option Http.bodyinit) (a : loc) (signal : option nat)
          (σ : store).

(** X22. The [x-bare-headers] value [request] hands to [splitHeaders] is a
    JSON text: read back, it is the object of the caller's array with
    [Host] injected, every value a string. *)
Theorem bare_headers_wellformed (h : RawHeaders) :
  σ !! a = Some h →
  ∃ x k,
    (∀ fetch,
       (Http.request JSON_parse md5 fetch joinHeaders splitHeaders this remote
                     method body a signal σ).2
       = fetch (URL.toString (ClientV3.http this) +:+ "?cache="
                +:+ md5 (URL.toString remote))
               (Http.mkInit "omit" method signal "half" body
                  (Some (splitHeaders [("x-bare-url", URL.toString remote);
                                       ("x-bare-headers", x)])))
         ≫= k)
    ∧ JSON.parse x
      = Some (Http.headers_object (h ++ [("Host", URL.host remote)])).
Proof.
  intros H.
  destruct (request_fetched JSON_parse md5 joinHeaders splitHeaders this remote
              method body a signal σ h H) as [k Hk].
  exists (JSON.stringify (Http.headers_object (h ++ [("Host", URL.host remote)]))), k.
  split; [exact Hk|apply parse_headers_object].
Qed.

Variable fetch : string -> Http.RequestInit -> result Http.Response.

(** X23. Headers the tunnel encodes the way this client encodes its own, as
    the JSON text of the object of a header array, are decoded to the
    entries of that object: one entry for each name of the array, with
    the last value the array gives it. *)
Theorem response_headers_decoded (response : Http.Response) (hs : Headers.t)
    (l : RawHeaders) :
  (∀ options,
     fetch (URL.toString (ClientV3.http this) +:+ "?cache="
            +:+ md5 (URL.toString remote)) options = Ok response) →
  Http.ok response = true →
  joinHeaders (Http.response_headers response) = Ok hs →
  Headers.get "x-bare-headers" hs = Some (JSON.stringify (Http.headers_object l)) →
  ∃ r, (Http.request JSON.parse md5 fetch joinHeaders splitHeaders this remote
                     method body a signal σ).2 = Ok r
     ∧ Http.t_headers r
       = Some (List.map (fun e : string * string => (e.1, JSON.JStr e.2))
                        (Obj.fromEntries l)).
Proof.
  intros Hf Hok Hj Hx.
  rewrite (request_outcome _ _ _ _ _ _ _ _ _ _ _ _ _ Hf).
  rewrite (readBareResponse_success _ _ _ hs Hok Hj). simpl.
  rewrite Hx, parse_headers_object. simpl. by eexists.
Qed.

End Loopback.

Lemma bare_headers_wellformed_witness :
  ∃ x k,
    (∀ fetch,
       (Http.request JSON.parse Sample.md5 fetch Codec.joinHeaders
          (Codec.splitHeaders 3072) Sample.client Sample.remote "GET" None
          1%positive None (Sample.heap1 [("accept", "text/html")])).2
       = fetch (URL.toString (ClientV3.http Sample.client) +:+ "?cache="
                +:+ Sample.md5 (URL.toString Sample.remote))
               (Http.mkInit "omit" "GET" None "half" None
                  (Some (Codec.splitHeaders 3072
                           [("x-bare-url", URL.toString Sample.remote);
                            ("x-bare-headers", x)])))
         ≫= k)
    ∧ JSON.parse x
      = Some (JSON.JObj [("accept", JSON.JStr "text/html");
                         ("Host", JSON.JStr "example.com:8443")]).
Proof.
  exact (bare_headers_wellformed JSON.parse Sample.md5 Codec.joinHeaders (Codec.splitHeaders 3072)
           Sample.client Sample.remote "GET" None 1%positive None
           (Sample.heap1 [("accept", "text/html")]) [("accept", "text/html")] eq_refl).
Defined.

Lemma response_headers_decoded_witness :
  ∃ r, (Sample.request Sample.created_object []).2 = Ok r
     ∧ Http.t_headers r = Some [("content-type", JSON.JStr "text/plain")].
Proof.
  exact (response_headers_decoded Sample.md5 Codec.joinHeaders (Codec.splitHeaders 3072)
           Sample.client Sample.remote "GET" None 1%positive None (Sample.heap1 [])
           (Sample.tunnel Sample.created_object) Sample.created_object
           (Http.response_headers Sample.created_object)
           [("content-type", "text/plain")]
           (fun _ => eq_refl) eq_refl eq_refl eq_refl).
Defined.

Section Accepted.

Variables (this : ClientV3.t) (url : URL.t) (protocols : list string)
          (requestHeaders : option loc) (σ : store).
Variables (c : Ws.connection) (w : Ws.world).

Hypothesis connected : Ws.connect this url protocols requestHeaders σ = (c, w).

(** X24. A [SocketServerToClient] message written by [JSON.stringify], as the
    first frame: the socket is established, [onopen] gets the protocol
    of the message, whatever the protocol and the cookies are, and the
    later frames and close events are relayed. *)
Theorem open_message_accepted (pre post : list Ws.input) (protocol : string)
    (setCookies : list string) :
  Ws.relayed pre = [] →
  Ws.calls
    (Ws.trace
       (Ws.run JSON.parse c w
          (pre ++
           Ws.Event
             (Ws.EvMessage
                (Ws.Text
                   (JSON.stringify
                      (JSON.JObj
                         [("type", JSON.JStr "open");
                          ("protocol", JSON.JStr protocol);
                          ("setCookies",
                           JSON.JArr (List.map JSON.JStr setCookies))]))))
           :: post)))
  = Ws.Onopen (Some (JSON.JStr protocol)) EmptyString :: Ws.relayed post.
Proof.
  intros Hq.
  set (o := [("type", JSON.JStr "open"); ("protocol", JSON.JStr protocol);
             ("setCookies", JSON.JArr (List.map JSON.JStr setCookies))]).
  assert (JSON.parse (JSON.stringify (JSON.JObj o)) = Some (JSON.JObj o)) as Hparse.
  { rewrite parse_stringify.
    - subst o. cbn [JSON.normal List.map fst snd]. by rewrite normal_strings.
    - subst o. cbn [JSON.number_free forallb snd]. by rewrite number_free_strings. }
  destruct (connect_trace_split JSON.parse this url protocols requestHeaders σ c w
              connected pre
              (Ws.Event (Ws.EvMessage (Ws.Text (JSON.stringify (JSON.JObj o))))) post Hq)
    as ([st op rd] & Hst & ->). simpl in Hst. subst st.
  unfold Ws.phase_step. cbn [Ws.ph_stage].
  rewrite (reply_accepts JSON.parse _ o Hparse eq_refl). simpl.
  by rewrite established_calls.
Qed.

End Accepted.

Lemma open_message_accepted_witness :
  Ws.calls
    (Ws.trace
       (Ws.run JSON.parse (Sample.connect []).1 (Sample.connect []).2
          ([Ws.Event Ws.EvOpen]
           ++ Ws.Event
                (Ws.EvMessage
                   (Ws.Text
                      (JSON.stringify
                         (JSON.JObj
                            [("type", JSON.JStr "open");
                             ("protocol", JSON.JStr "chat");
                             ("setCookies",
                              JSON.JArr (List.map JSON.JStr ["a=1"; "b=2"]))]))))
              :: [Ws.Event (Ws.EvMessage (Ws.Text "hello"))])))
  = [Ws.Onopen (Some (JSON.JStr "chat")) EmptyString; Ws.Onmessage (Ws.Text "hello")].
Proof.
  exact (open_message_accepted Sample.client Sample.remote ["chat"]
           (Some 1%positive) (Sample.heap1 []) _ _ eq_refl
           [Ws.Event Ws.EvOpen] [Ws.Event (Ws.EvMessage (Ws.Text "hello"))]
           "chat" ["a=1"; "b=2"] eq_refl).
Defined.
